(** * graphqlhelpers: the argument loader of graphql-go-helpers

    A shallow embedding of [args.go] (package [graphqlhelpers]): the
    [ArgLoader] registry of loader funcs keyed by [reflect.Type], the schema
    derivation [SafeArgsConfig]/[ArgsConfig], the struct population
    [LoadArgs], and the four built-in loader funcs.

    Go's reflection is modelled by an explicit universe of types ([rtype])
    and of dynamically typed values ([value], [iface]).  A Go call that can
    end in a run-time panic yields an [exec]; a Go call that mutates what a
    pointer refers to returns the new referent next to its result. *)

From Stdlib Require Import ZArith String List.
From Stdlib.Floats Require Import SpecFloat.
From stdpp Require Import base option countable gmap strings list fin_maps.

Local Open Scope string_scope.

(** ** Package [reflect]: types *)

(** A struct tag in parsed form: the [key:"value"] pairs in the order they are
    written.  [reflect.StructTag.Lookup] returns the first pair for a key. *)
Definition StructTag := list (string * string).

(** [reflect.StructField], over the representation [T] of types. *)
Record StructField_ (T : Type) := mkStructField {
  Name : string;
  (** empty for an exported (upper case) field name *)
  PkgPath : string;
  Type_ : T;
  Tag : StructTag
}.
Arguments mkStructField {T} _ _ _ _.
Arguments Name {T} _.
Arguments PkgPath {T} _.
Arguments Type_ {T} _.
Arguments Tag {T} _.

(** [reflect.Type]: the Go types of the model.  The only type with a method
    is the interface [error]. *)
Unset Elimination Schemes.
Inductive rtype : Type :=
  | TBool
  | TInt
  | TFloat64
  | TString
  | TInterface                      (* interface{} *)
  | TError                          (* error *)
  | PtrTo (elem : rtype)
  | StructOf (name : string) (fields : list (StructField_ rtype))
  | FuncOf (ins outs : list rtype).

Set Elimination Schemes.

Abbreviation StructField := (StructField_ rtype).

(** [reflect.Kind] *)
Module reflect.
Inductive Kind : Set :=
  Bool | Int | Float64 | String | Interface | Ptr | Struct | Func.
End reflect.

Global Instance Kind_eq_dec : EqDecision reflect.Kind.
Proof. solve_decision. Defined.

(** *** [reflect.Type] is a map key: equality is decidable, the types are
    countable *)

Definition tag_tree (tg : StructTag) : gen_tree string :=
  GenNode 0 (map (λ kv, GenNode 0 [GenLeaf kv.1; GenLeaf kv.2]) tg).

Definition field_tree (enc : rtype → gen_tree string) (f : StructField_ rtype)
    : gen_tree string :=
  GenNode 0 [GenLeaf (Name f); GenLeaf (PkgPath f); enc (Type_ f);
             tag_tree (Tag f)].

Fixpoint rtype_tree (t : rtype) : gen_tree string :=
  match t with
  | TBool => GenNode 0 []
  | TInt => GenNode 1 []
  | TFloat64 => GenNode 2 []
  | TString => GenNode 3 []
  | TInterface => GenNode 4 []
  | TError => GenNode 5 []
  | PtrTo elem => GenNode 6 [rtype_tree elem]
  | StructOf name fields =>
      GenNode 7 (GenLeaf name :: map (field_tree rtype_tree) fields)
  | FuncOf ins outs =>
      GenNode 8 [GenNode 0 (map rtype_tree ins); GenNode 0 (map rtype_tree outs)]
  end.

Definition tree_pair (t : gen_tree string) : option (string * string) :=
  match t with
  | GenNode 0 [GenLeaf k; GenLeaf v] => Some (k, v)
  | _ => None
  end.

Definition tree_tag (t : gen_tree string) : option StructTag :=
  match t with
  | GenNode 0 kvs => mapM tree_pair kvs
  | _ => None
  end.

Definition tree_field (dec : gen_tree string → option rtype)
    (t : gen_tree string) : option (StructField_ rtype) :=
  match t with
  | GenNode 0 [GenLeaf n; GenLeaf p; ty; tg] =>
      ty' ← dec ty; tg' ← tree_tag tg; Some (mkStructField n p ty' tg')
  | _ => None
  end.

Fixpoint tree_rtype (t : gen_tree string) : option rtype :=
  match t with
  | GenNode 0 [] => Some TBool
  | GenNode 1 [] => Some TInt
  | GenNode 2 [] => Some TFloat64
  | GenNode 3 [] => Some TString
  | GenNode 4 [] => Some TInterface
  | GenNode 5 [] => Some TError
  | GenNode 6 [e] => PtrTo <$> tree_rtype e
  | GenNode 7 (GenLeaf name :: fs) =>
      StructOf name <$> mapM (tree_field tree_rtype) fs
  | GenNode 8 [GenNode 0 ins; GenNode 0 outs] =>
      ins' ← mapM tree_rtype ins; outs' ← mapM tree_rtype outs;
      Some (FuncOf ins' outs')
  | _ => None
  end.

Lemma tree_tag_tree tg : tree_tag (tag_tree tg) = Some tg.
Proof.
  unfold tree_tag, tag_tree. apply mapM_Some_2.
  induction tg as [|[k v] tg IH]; constructor; auto.
Qed.

Lemma tree_field_tree enc dec f :
  dec (enc (Type_ f)) = Some (Type_ f) →
  tree_field dec (field_tree enc f) = Some f.
Proof.
  intros H. unfold tree_field, field_tree.
  rewrite H, tree_tag_tree. by destruct f.
Qed.

(** Induction over [rtype] that reaches the types nested in field lists and
    signatures. *)
Section rtype_ind'.
Variable P : rtype → Prop.
Hypothesis HBool : P TBool.
Hypothesis HInt : P TInt.
Hypothesis HFloat64 : P TFloat64.
Hypothesis HString : P TString.
Hypothesis HInterface : P TInterface.
Hypothesis HError : P TError.
Hypothesis HPtr : ∀ elem, P elem → P (PtrTo elem).
Hypothesis HStruct : ∀ name fields,
  Forall (λ f, P (Type_ f)) fields → P (StructOf name fields).
Hypothesis HFunc : ∀ ins outs,
  Forall P ins → Forall P outs → P (FuncOf ins outs).

Fixpoint rtype_ind' (t : rtype) : P t :=
  match t with
  | TBool => HBool
  | TInt => HInt
  | TFloat64 => HFloat64
  | TString => HString
  | TInterface => HInterface
  | TError => HError
  | PtrTo elem => HPtr elem (rtype_ind' elem)
  | StructOf name fields =>
      HStruct name fields
        ((fix go (l : list StructField) : Forall (λ f, P (Type_ f)) l :=
            match l with
            | [] => @List.Forall_nil _ _
            | f :: l' =>
                @List.Forall_cons _ _ _ _ (rtype_ind' (Type_ f)) (go l')
            end) fields)
  | FuncOf ins outs =>
      let go := fix go (l : list rtype) : Forall P l :=
        match l with
        | [] => @List.Forall_nil _ _
        | x :: l' => @List.Forall_cons _ _ _ _ (rtype_ind' x) (go l')
        end in
      HFunc ins outs (go ins) (go outs)
  end.
End rtype_ind'.

Lemma tree_rtype_tree t : tree_rtype (rtype_tree t) = Some t.
Proof.
  induction t as [| | | | | |elem IH|name fields IH|ins outs IHi IHo]
    using rtype_ind'; simpl; try reflexivity.
  - by rewrite IH.
  - assert (Hm : mapM (tree_field tree_rtype)
                   (map (field_tree rtype_tree) fields) = Some fields).
    { apply mapM_Some_2. induction IH as [|f fs Hf _ IHfs]; constructor; auto.
      by apply tree_field_tree. }
    by rewrite Hm.
  - assert (Hl : ∀ l, Forall (λ t, tree_rtype (rtype_tree t) = Some t) l →
                      mapM tree_rtype (map rtype_tree l) = Some l).
    { intros l Hall. apply mapM_Some_2.
      induction Hall; constructor; auto. }
    by rewrite (Hl _ IHi), (Hl _ IHo).
Qed.

Global Instance rtype_eq_dec : EqDecision rtype.
Proof.
  intros x y. destruct (decide (rtype_tree x = rtype_tree y)) as [E|N].
  - left. apply (inj Some). by rewrite <- !tree_rtype_tree, E.
  - right. intros ->. by apply N.
Defined.

Global Instance rtype_countable : Countable rtype.
Proof. exact (inj_countable rtype_tree tree_rtype tree_rtype_tree). Defined.

(** ** Values behind [interface{}] *)

(** The data that flows through the loader: raw arguments, field contents,
    what loader funcs receive and return.  [VStruct name decl fs] is a struct
    of type [StructOf name decl] holding [fs], one value per field;
    [VPtr elem target] is a pointer of type [PtrTo elem], [target = None]
    being the nil pointer.  A pointer carries its referent: a call that writes
    through it hands the updated pointer back. *)
Unset Elimination Schemes.
Inductive value : Type :=
  | VNil                                         (* the nil interface *)
  | VBool (b : bool)
  | VInt (n : Z)
  | VFloat64 (x : spec_float)
  | VString (s : string)
  | VStruct (name : string) (decl : list StructField) (fields : list value)
  | VPtr (elem : rtype) (target : option value).

(** ** Package [fmt]

    A formatted message is kept as its format string and operands; it is not
    rendered.  [error] is what [fmt.Errorf] builds. *)
Inductive operand : Type :=
  | OValue (v : value)
  | OFunc (name : string)                        (* a func value *)
  | OType (t : rtype)
  | OString (s : string)
  | OInt (n : Z)
  | OError (e : error)
  | OSprintf (format : string) (args : list operand)
  | ORuntimeError (msg : string)                 (* a runtime.Error *)
with error : Type :=
  | Errorf (format : string) (args : list operand).
Set Elimination Schemes.

(** ** Panics

    A Go call either returns or panics with a value, the one that [recover]
    returns.  That value can be nil, [OValue VNil]: [panic(nil)] reaches
    [recover] as nil before Go 1.21 and under [GODEBUG=panicnil=1]; otherwise
    the runtime makes it a [*runtime.PanicNilError], which is not nil. *)
Inductive exec (A : Type) : Type :=
  | Return (a : A)
  | Panic (p : operand).
Arguments Return {A} a.
Arguments Panic {A} p.

Global Instance exec_ret : MRet exec := λ A a, Return a.
Global Instance exec_bind : MBind exec := λ A B f x,
  match x with
  | Return a => f a
  | Panic p => Panic p
  end.

(** Calling a method on a nil interface value. *)
Definition nilDereference : operand :=
  ORuntimeError "invalid memory address or nil pointer dereference".

(** ** Func values *)

(** What one call of a loader func does: it returns its two results, the
    second one the [error] (None is nil), or it panics. *)
Inductive outcome : Type :=
  | Returns (v : value) (err : option error)
  | Panics (p : operand).

(** A func value: its name ([runtime.FuncForPC(...).Name()]), its signature,
    and its behaviour on one argument.  [Body] is consulted only for the
    signatures [Register] lets through: one input, two outputs, the second
    one an [error].  [Body] is a function of the argument: a func whose
    answer depends on anything else (a counter, the clock) is not in the
    model, and no statement below compares two calls of a func but for the
    built-in loader funcs, which the source shows to be such functions. *)
Record GoFunc := mkGoFunc {
  FuncName : string;
  Ins : list rtype;
  Outs : list rtype;
  Body : value → outcome
}.

(** An [interface{}] argument of the API: data or a func. *)
Inductive iface : Type :=
  | Data (v : value)
  | FuncVal (f : GoFunc).

Definition operandOf (i : iface) : operand :=
  match i with
  | Data v => OValue v
  | FuncVal f => OFunc (FuncName f)
  end.

(** ** Package [reflect]: operations *)

(** [reflect.TypeOf]; None is the nil [reflect.Type] of the nil interface. *)
Definition TypeOf_value (v : value) : option rtype :=
  match v with
  | VNil => None
  | VBool _ => Some TBool
  | VInt _ => Some TInt
  | VFloat64 _ => Some TFloat64
  | VString _ => Some TString
  | VStruct name decl _ => Some (StructOf name decl)
  | VPtr elem _ => Some (PtrTo elem)
  end.

Definition TypeOf (i : iface) : option rtype :=
  match i with
  | Data v => TypeOf_value v
  | FuncVal f => Some (FuncOf (Ins f) (Outs f))
  end.

(** A method call [t.M()] on a [reflect.Type] that may be nil. *)
Definition method (t : option rtype) : exec rtype :=
  match t with
  | Some t => Return t
  | None => Panic nilDereference
  end.

Definition Kind (t : rtype) : reflect.Kind :=
  match t with
  | TBool => reflect.Bool
  | TInt => reflect.Int
  | TFloat64 => reflect.Float64
  | TString => reflect.String
  | TInterface | TError => reflect.Interface
  | PtrTo _ => reflect.Ptr
  | StructOf _ _ => reflect.Struct
  | FuncOf _ _ => reflect.Func
  end.

(** [Type.Elem]; it panics on a type that has no element type. *)
Definition Elem (t : rtype) : exec rtype :=
  match t with
  | PtrTo elem => Return elem
  | _ => Panic (OString "reflect: Elem of invalid type")
  end.

(** The fields [structType.Field(0)], ..., [structType.Field(NumField()-1)]. *)
Definition Fields (t : rtype) : list StructField :=
  match t with
  | StructOf _ fields => fields
  | _ => []
  end.

Definition NumField (t : rtype) : nat := length (Fields t).

(** [Type.NumIn], [Type.NumOut] and [Type.Out] of a func type; [Out] panics
    when there is no such output. *)
Definition NumIn (t : rtype) : nat :=
  match t with
  | FuncOf ins _ => length ins
  | _ => 0
  end.

Definition NumOut (t : rtype) : nat :=
  match t with
  | FuncOf _ outs => length outs
  | _ => 0
  end.

Definition Out (t : rtype) (i : nat) : exec rtype :=
  match t with
  | FuncOf _ outs =>
      match outs !! i with
      | Some out => Return out
      | None => Panic (OString "reflect: Func index out of bounds")
      end
  | _ => Panic (OString "reflect: Out of non-func type")
  end.

(** [Type.Implements(errorInterface)]: [error] is the only type of the model
    with an [Error() string] method. *)
Definition ImplementsError (t : rtype) : bool := bool_decide (t = TError).

(** [Type.AssignableTo]: identical types, or an interface the type
    implements. *)
Definition AssignableTo (xt targ : rtype) : bool :=
  bool_decide (xt = targ) || bool_decide (targ = TInterface)
  || (bool_decide (targ = TError) && ImplementsError xt).

(** [StructTag.Lookup] and [StructTag.Get]. *)
Fixpoint Lookup (tag : StructTag) (key : string) : option string :=
  match tag with
  | [] => None
  | (k, v) :: tag' => if decide (k = key) then Some v else Lookup tag' key
  end.

Definition Get (tag : StructTag) (key : string) : string :=
  default "" (Lookup tag key).

(** [reflect.ValueOf(c).Elem()]: the value a pointer refers to; None is the
    zero [reflect.Value], which a nil pointer yields. *)
Definition ValueElem (c : iface) : exec (option value) :=
  match c with
  | Data (VPtr _ target) => Return target
  | _ => Panic (OString "reflect: call of reflect.Value.Elem on non-pointer Value")
  end.

(** [Kind.String] *)
Definition Kind_String (k : reflect.Kind) : string :=
  match k with
  | reflect.Bool => "bool"
  | reflect.Int => "int"
  | reflect.Float64 => "float64"
  | reflect.String => "string"
  | reflect.Interface => "interface"
  | reflect.Ptr => "ptr"
  | reflect.Struct => "struct"
  | reflect.Func => "func"
  end.

(** [structVal.Field(i).Set(toSet)].  [Field] panics on a Value that is not a
    struct, the zero Value that a nil pointer yields among them; [Set] on a
    field reached through an unexported name and on the zero Value as its
    operand.  The struct is addressable, being reached through a pointer. *)
Definition FieldSet (structVal : option value) (field : StructField) (i : nat)
    (toSet : option value) : exec (option value) :=
  match structVal with
  | Some (VStruct name decl fs) =>
      if decide (PkgPath field = "") then
        match toSet with
        | Some x => Return (Some (VStruct name decl (<[i:=x]> fs)))
        | None =>
            Panic (OString "reflect: call of reflect.Value.Set on zero Value")
        end
      else
        Panic (OString
          "reflect: reflect.Value.Set using value obtained using unexported field")
  | Some v =>
      Panic (OString ("reflect: call of reflect.Value.Field on " ++
                      from_option (λ t, Kind_String (Kind t)) "zero"
                        (TypeOf_value v) ++ " Value"))
  | None => Panic (OString "reflect: call of reflect.Value.Field on zero Value")
  end.

(** [callable.Call([]reflect.Value{reflect.ValueOf(i)})]: the call of a func
    value with the one argument [i].  [Call] itself panics on a Value that is
    no func, on a wrong number of arguments, on the zero Value as the
    argument ([i] is nil) and on an argument that is not assignable to the
    parameter type, in this order. *)
Definition Call (callable : iface) (i : value) : outcome :=
  match callable with
  | Data _ =>
      Panics (OString "reflect: call of reflect.Value.Call on non-func Value")
  | FuncVal f =>
      match Ins f with
      | [] => Panics (OString "reflect: Call with too many input arguments")
      | [targ] =>
          match TypeOf_value i with
          | None => Panics (OString "reflect: Call using zero Value argument")
          | Some xt =>
              if AssignableTo xt targ then Body f i
              else Panics (OSprintf "reflect: Call using %s as type %s"
                             [OType xt; OType targ])
          end
      | _ => Panics (OString "reflect: Call with too few input arguments")
      end
  end.

(** [runtime.FuncForPC(reflect.ValueOf(f).Pointer()).Name()] *)
Definition FuncForPC_Name (f : iface) : string :=
  match f with
  | FuncVal g => FuncName g
  | Data _ => ""
  end.

(** ** Package [strconv] *)

Module strconv.
(** [strconv.ParseBool]: the literals Go accepts, anything else is a
    syntax error. *)
Definition ParseBool (str : string) : bool * option error :=
  if bool_decide (str ∈ ["1"; "t"; "T"; "true"; "TRUE"; "True"]) then
    (true, None)
  else if bool_decide (str ∈ ["0"; "f"; "F"; "false"; "FALSE"; "False"]) then
    (false, None)
  else
    (false, Some (Errorf "strconv.ParseBool: parsing %q: invalid syntax"
                    [OString str])).
End strconv.

(** ** Package [graphql] (graphql-go): what the loader uses of it *)

Module graphql.
(** The types a schema names; [Boolean], [String], [Int] and [Float] are the
    built-in scalars. *)
Inductive Type_ : Set :=
  | Boolean
  | String
  | Int
  | Float
  | Named (name : string).

(** [graphql.Output] is an interface: None is nil. *)
Abbreviation Output := (option Type_).

(** [graphql.ArgumentConfig], of which the loader sets [Type] and
    [Description]. *)
Record ArgumentConfig := mkArgumentConfig {
  Type' : Output;
  Description : string
}.

(** [graphql.ResolveParams], of which the loader reads [Args]. *)
Record ResolveParams := mkResolveParams {
  Args : gmap string value
}.
End graphql.

(** [graphql.FieldConfigArgument] is [map[string]*ArgumentConfig]. *)
Abbreviation FieldConfigArgument := (gmap string graphql.ArgumentConfig).

(** ** Package [graphqlhelpers] *)

Definition argTag : string := "arg".
Definition requiredTag : string := "required".
Definition descTag : string := "desc".

(** A registered loader func: [func(interface{}) (reflect.Value, error)].
    None as the first result is the zero [reflect.Value{}]. *)
Abbreviation LoaderFunc := (value → option value * option error).

(** [ArgLoader]: the two maps keyed by [reflect.Type]. *)
Record ArgLoader := mkArgLoader {
  loaderFuncs : gmap rtype LoaderFunc;
  gqlTypes : gmap rtype graphql.Output
}.

(** [Empty] returns an ArgLoader without any loader funcs enabled. *)
Definition Empty : ArgLoader :=
  {| loaderFuncs := ∅; gqlTypes := ∅ |}.

(** *** [SafeArgsConfig] and [ArgsConfig] *)

(** One round of the loop of [SafeArgsConfig]. *)
Definition argsConfigStep (e : ArgLoader) (out : FieldConfigArgument)
    (field : StructField) : FieldConfigArgument :=
  match Lookup (Tag field) argTag with
  | None => out                     (* this field doesn't have our tag.  Skip. *)
  | Some argName =>
      <[argName :=
          {| graphql.Type' := default None (gqlTypes e !! Type_ field);
             graphql.Description := Get (Tag field) descTag |}]> out
  end.

(** The loop [for i := 0; i < structType.NumField(); i++], started on the
    empty [out]. *)
Definition argsConfigLoop (e : ArgLoader) (fields : list StructField)
    : FieldConfigArgument :=
  foldl (argsConfigStep e) ∅ fields.

(** The result is Go's pair [(graphql.FieldConfigArgument, error)]; None is
    nil in both places. *)
Definition SafeArgsConfig (e : ArgLoader) (i : iface)
    : exec (option FieldConfigArgument * option error) :=
  (* accept either a struct or a pointer to a struct *)
  iType ← method (TypeOf i);
  structType ← (if decide (Kind iType = reflect.Ptr) then Elem iType
                else method (TypeOf i));
  if decide (Kind structType ≠ reflect.Struct) then
    Return (None, Some (Errorf "%v is not a struct" [operandOf i]))
  else
    Return (Some (argsConfigLoop e (Fields structType)), None).

Definition ArgsConfig (e : ArgLoader) (i : iface)
    : exec (option FieldConfigArgument) :=
  '(conf, err) ← SafeArgsConfig e i;
  match err with
  | Some err =>
      Panic (OSprintf "could not configure arguments: %v" [OError err])
  | None => Return conf
  end.

(** *** [Register] *)

(** [p != nil] for the value [p] that [recover] returns. *)
Definition notNil (p : operand) : bool :=
  match p with
  | OValue VNil => false
  | _ => true
  end.

(** The closure [wrapped] that [Register] stores: it calls the loader func
    and turns a panic of the call, recovered by the deferred func, and a
    non-nil error into its error result.  The deferred func sets the error
    only if [recover] returns a value that is not nil: after a panic with
    nil the results are left as they are, the zero Value and the nil
    error. *)
Definition wrapped (fname : string) (callable : iface) : LoaderFunc := λ i,
  match Call callable i with
  | Panics p =>
      if notNil p then
        (* we panicked running the inner loader func. *)
        (None, Some (Errorf "%s panicked: %s" [OString fname; p]))
      else (None, None)
  | Returns returnvals0 (Some returnvals1) =>
      (None, Some (Errorf "%v" [OError returnvals1]))
  | Returns returnvals0 None => (Some returnvals0, None)
  end.

(** [Register] works on the maps of [e] in place: it returns the loader as
    the call leaves it next to its result. *)
Definition Register (e : ArgLoader) (f : iface) (gqlType : graphql.Output)
    : ArgLoader * exec (option error) :=
  match method (TypeOf f) with
  | Panic pv => (e, Panic pv)
  | Return t =>
  if decide (Kind t ≠ reflect.Func) then
    (e, Return (Some (Errorf "%v is not a func" [operandOf f])))
  else
  let fname := FuncForPC_Name f in
  (* f should accept one argument *)
  if decide (NumIn t ≠ 1) then
    (e, Return (Some (Errorf
      "loader func should accept 1 interface{} argument. %v accepts %d arguments"
      [OString fname; OInt (Z.of_nat (NumIn t))])))
  (* it should return two things *)
  else if decide (NumOut t ≠ 2) then
    (e, Return (Some (Errorf
      "loader func should return 2 arguments. %v returns %d arguments"
      [OString fname; OInt (Z.of_nat (NumOut t))])))
  else
  match Out t 1, Out t 0 with
  | Panic pv, _ | _, Panic pv => (e, Panic pv)
  | Return out1, Return out0 =>
  (* the first can be any type. the second should be error *)
  if negb (ImplementsError out1) then
    (e, Return (Some (Errorf
      "loader func's last return value should be error. %s's last return value is %v"
      [OString fname; OType out1])))
  else
  match loaderFuncs e !! out0 with
  | Some _ =>
      (e, Return (Some (Errorf
        "a loader func has already been registered for the %v type.  cannot also register %s"
        [OType out0; OString fname])))
  | None =>
      let callable := f in
      ({| loaderFuncs := <[out0 := wrapped fname callable]> (loaderFuncs e);
          gqlTypes := <[out0 := gqlType]> (gqlTypes e) |},
       Return None)
  end
  end
  end.

(** *** [LoadArgs] *)

(** The loop of [LoadArgs] over the fields from index [i] on; [fields] are
    [structType.Field(i)], [structType.Field(i+1)], ...  It returns the struct
    as the loop leaves it, next to the result of [LoadArgs]. *)
Fixpoint loadFields (e : ArgLoader) (p : graphql.ResolveParams)
    (fields : list StructField) (i : nat) (structVal : option value)
    : option value * exec (option error) :=
  match fields with
  | [] => (structVal, Return None)
  | field :: rest =>
      match Lookup (Tag field) argTag with
      | None =>
          (* this field doesn't have our tag.  Skip. *)
          loadFields e p rest (S i) structVal
      | Some argKey =>
          match graphql.Args p !! argKey with
          | None =>
              (* could not find the key we're looking for in map.  is it
                 required? *)
              match Lookup (Tag field) requiredTag with
              | None =>
                  (* no required tag, so it's not required. *)
                  loadFields e p rest (S i) structVal
              | Some requiredVal =>
                  match strconv.ParseBool requiredVal with
                  | (_, Some err) =>
                      (structVal, Return (Some (Errorf
                         "%s is not a valid 'required' tag value"
                         [OString requiredVal])))
                  | (required, None) =>
                      if required then
                        (structVal, Return (Some (Errorf "%s is required"
                                                    [OString argKey])))
                      else loadFields e p rest (S i) structVal
                  end
              end
          | Some interfaceVal =>
              match loaderFuncs e !! Type_ field with
              | None =>
                  (structVal, Return (Some (Errorf
                     "no loader function found for type %v"
                     [OType (Type_ field)])))
              | Some loaderFunc =>
                  match loaderFunc interfaceVal with
                  | (_, Some err) =>
                      (structVal, Return (Some (Errorf "cannot populate %s: %v"
                         [OString (Name field); OError err])))
                  | (toSet, None) =>
                      match FieldSet structVal field i toSet with
                      | Panic pv => (structVal, Panic pv)
                      | Return structVal' =>
                          loadFields e p rest (S i) structVal'
                      end
                  end
              end
          end
      end
  end.

(** Writing the referent of a pointer back. *)
Definition withTarget (c : iface) (target : option value) : iface :=
  match c with
  | Data (VPtr elem _) => Data (VPtr elem target)
  | _ => c
  end.

(** [LoadArgs] returns [c] as the call leaves it next to its result. *)
Definition LoadArgs (e : ArgLoader) (p : graphql.ResolveParams) (c : iface)
    : iface * exec (option error) :=
  match method (TypeOf c) with
  | Panic pv => (c, Panic pv)
  | Return pointerType =>
      if decide (Kind pointerType ≠ reflect.Ptr) then
        (c, Return (Some (Errorf "%v is not a pointer" [operandOf c])))
      else
        match Elem pointerType with
        | Panic pv => (c, Panic pv)
        | Return structType =>
            if decide (Kind structType ≠ reflect.Struct) then
              (c, Return (Some (Errorf "%v is not a pointer to a struct"
                                  [operandOf c])))
            else
              match ValueElem c with
              | Panic pv => (c, Panic pv)
              | Return structVal =>
                  let '(structVal', r) :=
                    loadFields e p (Fields structType) 0 structVal in
                  (withTarget c structVal', r)
              end
        end
  end.

(** *** The built-in loader funcs *)

Definition LoadBool (i : value) : bool * option error :=
  match i with
  | VBool b => (b, None)
  | _ => (false, Some (Errorf "%v is not a bool" [OValue i]))
  end.

Definition LoadString (i : value) : string * option error :=
  match i with
  | VString b => (b, None)
  | _ => ("", Some (Errorf "%v is not a string" [OValue i]))
  end.

Definition LoadInt (i : value) : Z * option error :=
  match i with
  | VInt b => (b, None)
  | _ => (0%Z, Some (Errorf "%v is not an int" [OValue i]))
  end.

Definition LoadFloat (i : value) : spec_float * option error :=
  match i with
  | VFloat64 b => (b, None)
  | _ => (S754_zero false, Some (Errorf "%v is not a float" [OValue i]))
  end.

(** A func [func name(i interface{}) (T, error)] as a func value; [inj] makes
    a value of a [T]. *)
Definition funcOf {A} (name : string) (out0 : rtype) (inj : A → value)
    (f : value → A * option error) : GoFunc :=
  {| FuncName := "github.com/btubbs/graphql-go-helpers." ++ name;
     Ins := [TInterface];
     Outs := [out0; TError];
     Body := λ i, let '(b, err) := f i in Returns (inj b) err |}.

Definition DefaultLoaders : list (iface * graphql.Output) :=
  [ (FuncVal (funcOf "LoadBool" TBool VBool LoadBool), Some graphql.Boolean);
    (FuncVal (funcOf "LoadString" TString VString LoadString), Some graphql.String);
    (FuncVal (funcOf "LoadInt" TInt VInt LoadInt), Some graphql.Int);
    (FuncVal (funcOf "LoadFloat" TFloat64 VFloat64 LoadFloat), Some graphql.Float) ].

(** [New] returns an ArgLoader with the default loader funcs enabled: the
    loop over [DefaultLoaders], that stops at the first error. *)
Fixpoint registerAll (ec : ArgLoader) (ls : list (iface * graphql.Output))
    : exec (option ArgLoader * option error) :=
  match ls with
  | [] => Return (Some ec, None)
  | (LoaderFunc, GqlType) :: ls' =>
      match Register ec LoaderFunc GqlType with
      | (_, Panic pv) => Panic pv
      | (_, Return (Some err)) => Return (None, Some err)
      | (ec', Return None) => registerAll ec' ls'
      end
  end.

Definition New : exec (option ArgLoader * option error) :=
  registerAll Empty DefaultLoaders.

(** [init]: the value of the package variable [defaultLoader] once the
    package is initialised, or the panic of [init]. *)
Definition init : exec (option ArgLoader) :=
  '(l, err) ← New;
  match err with
  | Some err => Panic (OSprintf "could not init default loader: %v" [OError err])
  | None => Return l
  end.

(** The package variable [defaultLoader] after [init]. *)
Definition defaultLoader : ArgLoader :=
  match init with
  | Return (Some l) => l
  | _ => Empty
  end.

(** ** Notions the statements below use *)

(** The value of field [k] of the struct that [c] points to. *)
Definition fieldValue (c : iface) (k : nat) : option value :=
  match c with
  | Data (VPtr _ (Some (VStruct _ _ fs))) => fs !! k
  | _ => None
  end.

(** Field [k] of the struct value [sv]. *)
Definition structField (sv : option value) (k : nat) : option value :=
  match sv with
  | Some (VStruct _ _ fs) => fs !! k
  | _ => None
  end.

(** What [c] points to. *)
Definition targetOf (c : iface) : option value :=
  match c with
  | Data (VPtr _ target) => target
  | _ => None
  end.

(** [field] is passed over by the loop of [LoadArgs]: it has no [arg] tag, or
    its argument is missing from [p.Args] and its [required] tag is missing
    or parses to false. *)
Definition skipped (p : graphql.ResolveParams) (field : StructField) : bool :=
  match Lookup (Tag field) argTag with
  | None => true
  | Some argKey =>
      match graphql.Args p !! argKey, Lookup (Tag field) requiredTag with
      | None, None => true
      | None, Some requiredVal =>
          match strconv.ParseBool requiredVal with
          | (false, None) => true
          | _ => false
          end
      | Some _, _ => false
      end
  end.

(** [field] is never written: it has no [arg] tag, or its argument is not in
    [p.Args]. *)
Definition notSet (p : graphql.ResolveParams) (field : StructField) : bool :=
  match Lookup (Tag field) argTag with
  | None => true
  | Some argKey => bool_decide (graphql.Args p !! argKey = None)
  end.

(** [field] is passed over, or its argument is in [p.Args], a loader func is
    registered for its type and converts the argument, and the field can be
    set. *)
Definition loadable (e : ArgLoader) (p : graphql.ResolveParams)
    (field : StructField) : bool :=
  skipped p field ||
  match Lookup (Tag field) argTag with
  | None => false
  | Some argKey =>
      match graphql.Args p !! argKey with
      | None => false
      | Some interfaceVal =>
          match loaderFuncs e !! Type_ field with
          | None => false
          | Some loaderFunc =>
              match loaderFunc interfaceVal with
              | (Some _, None) => bool_decide (PkgPath field = "")
              | _ => false
              end
          end
      end
  end.

(** [field] is not required, or its argument is in [p.Args] and the loader
    func registered for its type converts it. *)
Definition requiredSatisfied (e : ArgLoader) (p : graphql.ResolveParams)
    (field : StructField) : bool :=
  match Lookup (Tag field) argTag, Lookup (Tag field) requiredTag with
  | Some argKey, Some requiredVal =>
      match strconv.ParseBool requiredVal with
      | (true, None) =>
          match graphql.Args p !! argKey, loaderFuncs e !! Type_ field with
          | Some interfaceVal, Some loaderFunc =>
              match loaderFunc interfaceVal with
              | (Some _, None) => true
              | _ => false
              end
          | _, _ => false
          end
      | _ => true
      end
  | _, _ => true
  end.

(** [f] is a converter for [out0]: a func of one input and of the two
    outputs [out0] and [error]. *)
Definition loaderSignature (f : GoFunc) (out0 : rtype) : Prop :=
  length (Ins f) = 1 ∧ Outs f = [out0; TError].

(** The five ways in which [Register] returns an error. *)
Inductive RegisterError (e : ArgLoader) : iface → error → Prop :=
  | NotAFunc v t :
      TypeOf_value v = Some t →
      RegisterError e (Data v) (Errorf "%v is not a func" [OValue v])
  | WrongNumIn f :
      length (Ins f) ≠ 1 →
      RegisterError e (FuncVal f) (Errorf
        "loader func should accept 1 interface{} argument. %v accepts %d arguments"
        [OString (FuncName f); OInt (Z.of_nat (length (Ins f)))])
  | WrongNumOut f :
      length (Ins f) = 1 → length (Outs f) ≠ 2 →
      RegisterError e (FuncVal f) (Errorf
        "loader func should return 2 arguments. %v returns %d arguments"
        [OString (FuncName f); OInt (Z.of_nat (length (Outs f)))])
  | LastNotError f out0 out1 :
      length (Ins f) = 1 → Outs f = [out0; out1] → out1 ≠ TError →
      RegisterError e (FuncVal f) (Errorf
        "loader func's last return value should be error. %s's last return value is %v"
        [OString (FuncName f); OType out1])
  | AlreadyRegistered f out0 w :
      loaderSignature f out0 → loaderFuncs e !! out0 = Some w →
      RegisterError e (FuncVal f) (Errorf
        "a loader func has already been registered for the %v type.  cannot also register %s"
        [OType out0; OString (FuncName f)]).

(** ** Structs and loaders of the examples *)

(** The struct of the demonstration program:
[[
type helloArgs struct {
	Name     string `arg:"name" required:"true" desc:"Your name"`
	Greeting string `arg:"greeting" desc:"How to say hello"`
}
]] *)
Definition helloName : StructField :=
  mkStructField "Name" "" TString
    [("arg", "name"); ("required", "true"); ("desc", "Your name")].

Definition helloGreeting : StructField :=
  mkStructField "Greeting" "" TString
    [("arg", "greeting"); ("desc", "How to say hello")].

Definition helloArgs : list StructField := [helloName; helloGreeting].

(** A [helloArgs] with the given contents. *)
Definition helloValue (name greeting : string) : option value :=
  Some (VStruct "helloArgs" helloArgs [VString name; VString greeting]).

(** [var args helloArgs; &args] *)
Definition newHelloArgs : iface :=
  Data (VPtr (StructOf "helloArgs" helloArgs) (helloValue "" "")).

(** [p.Args] given as a list of entries. *)
Definition params (args : list (string * value)) : graphql.ResolveParams :=
  graphql.mkResolveParams (list_to_map args).

(** A loader func for strings that answers every argument with its own
    name. *)
Definition constString (name : string) : GoFunc :=
  {| FuncName := name; Ins := [TInterface]; Outs := [TString; TError];
     Body := λ _, Returns (VString name) None |}.

(** A loader that has ["main.first"] registered for strings. *)
Definition firstLoader : ArgLoader :=
  (Register Empty (FuncVal (constString "main.first")) None).1.

(** A loader func for strings that panics on every argument, and a loader
    that has it registered. *)
Definition panicking : GoFunc :=
  {| FuncName := "main.LoadPanic"; Ins := [TInterface];
     Outs := [TString; TError];
     Body := λ _, Panics (OString "boom") |}.

Definition panicLoader : ArgLoader :=
  (Register Empty (FuncVal panicking) (Some graphql.String)).1.



(** [helloArgs] with its fields declared the other way round. *)
Definition greetingFirst : list StructField := [helloGreeting; helloName].

Definition newGreetingFirst : iface :=
  Data (VPtr (StructOf "helloArgs" greetingFirst)
          (Some (VStruct "helloArgs" greetingFirst [VString ""; VString ""]))).

(** A struct of one string field whose [required] tag is no boolean. *)
Definition maybeName : StructField :=
  mkStructField "Name" "" TString [("arg", "name"); ("required", "maybe")].

Definition maybeValue (name : string) : option value :=
  Some (VStruct "maybeArgs" [maybeName] [VString name]).

Definition newMaybeArgs : iface :=
  Data (VPtr (StructOf "maybeArgs" [maybeName]) (maybeValue "")).

(** A struct with a field that is no argument:
[[
type withSecret struct {
	Name   string `arg:"name"`
	Secret string `desc:"not an argument"`
}
]] *)
Definition plainName : StructField :=
  mkStructField "Name" "" TString [("arg", "name")].

Definition secret : StructField :=
  mkStructField "Secret" "" TString [("desc", "not an argument")].

Definition secretValue : option value :=
  Some (VStruct "withSecret" [plainName; secret]
          [VString ""; VString "s3cr3t"]).

Definition aWithSecret : iface :=
  Data (VPtr (StructOf "withSecret" [plainName; secret]) secretValue).

(** A struct with a field of a type that no loader func is registered for:
[[
type page struct {
	Title string  `arg:"title" desc:"The title"`
	Next  *string `arg:"next" desc:"Where to go on"`
}
]] *)
Definition pageTitle : StructField :=
  mkStructField "Title" "" TString [("arg", "title"); ("desc", "The title")].

Definition pageNext : StructField :=
  mkStructField "Next" "" (PtrTo TString)
    [("arg", "next"); ("desc", "Where to go on")].

Definition aPage : iface :=
  Data (VStruct "page" [pageTitle; pageNext] [VString ""; VPtr TString None]).

(** [helloArgs] with a third, optional field [Count int `arg:"count"`]. *)
Definition helloCount : StructField :=
  mkStructField "Count" "" TInt [("arg", "count")].

Definition countedHello : list StructField :=
  [helloName; helloGreeting; helloCount].

Definition newCountedHello : iface :=
  Data (VPtr (StructOf "helloArgs" countedHello)
          (Some (VStruct "helloArgs" countedHello
                   [VString ""; VString ""; VInt 0]))).

(** ** The package-level functions and the demonstration program *)

(** [ArgsConfig], [LoadArgs] and [Register] of the package: they hand their
    arguments to the package variable [defaultLoader], given here as it is
    at the call.  [Register] returns it as the call leaves it. *)
Module graphqlhelpers.
Definition ArgsConfig (defaultLoader : ArgLoader) (i : iface)
    : exec (option FieldConfigArgument) :=
  ArgsConfig defaultLoader i.

Definition LoadArgs (defaultLoader : ArgLoader) (p : graphql.ResolveParams)
    (i : iface) : iface * exec (option error) :=
  LoadArgs defaultLoader p i.

Definition Register (defaultLoader : ArgLoader) (f : iface)
    (gqlType : graphql.Output) : ArgLoader * exec (option error) :=
  Register defaultLoader f gqlType.
End graphqlhelpers.

(** The [Resolve] func of the field [hello] of the demonstration program.
    Its result is Go's pair [(interface{}, error)].  No func is registered
    in the program, so the package variable is what [init] left.
    [fmt.Sprintf("%s %s", a, b)] on two strings is [a], a blank and [b]. *)
Module main.
Definition Resolve (p : graphql.ResolveParams) : exec (value * option error) :=
  (* var args helloArgs; err := graphqlhelpers.LoadArgs(p, &args) *)
  match graphqlhelpers.LoadArgs defaultLoader p newHelloArgs with
  | (_, Panic pv) => Panic pv
  | (_, Return (Some err)) => Return (VNil, Some err)
  | (args, Return None) =>
      match targetOf args with
      | Some (VStruct _ _ [VString name; VString greeting]) =>
          let greeting :=
            if decide (greeting = "") then "Hello" else greeting in
          Return (VString (greeting ++ " " ++ name), None)
      | _ =>
          (* the fields of a helloArgs are strings *)
          Panic (ORuntimeError "helloArgs does not hold two strings")
      end
  end.
End main.

(** ** More notions for the statements *)

(** Every loader func of [e] is a closure that [Register] built. *)
Definition registered (e : ArgLoader) : Prop :=
  ∀ t w, loaderFuncs e !! t = Some w →
    ∃ fname callable, w = wrapped fname callable.

(** The entry that the loop of [SafeArgsConfig] writes for [field]. *)
Definition entryOf (e : ArgLoader) (field : StructField)
    : graphql.ArgumentConfig :=
  {| graphql.Type' := default None (gqlTypes e !! Type_ field);
     graphql.Description := Get (Tag field) descTag |}.

(** Two fields look the same to [SafeArgsConfig]: same [arg] tag, same
    [desc] tag, same type. *)
Definition sameArgument (f f' : StructField) : Prop :=
  Lookup (Tag f) argTag = Lookup (Tag f') argTag ∧
  Get (Tag f) descTag = Get (Tag f') descTag ∧
  Type_ f = Type_ f'.

(** The two parameter maps agree on the argument of [field]. *)
Definition sameArgs (p p' : graphql.ResolveParams) (field : StructField)
    : Prop :=
  ∀ argKey, Lookup (Tag field) argTag = Some argKey →
    graphql.Args p !! argKey = graphql.Args p' !! argKey.

(** [field] has no [arg] tag or is exported. *)
Definition settable (field : StructField) : Prop :=
  Lookup (Tag field) argTag = None ∨ PkgPath field = "".

(** [sv'] is [sv] up to the values of the fields: the same struct type
    with as many fields, or the same Value if [sv] is no struct. *)
Definition sameShape (sv sv' : option value) : Prop :=
  match sv with
  | Some (VStruct name decl fs) =>
      ∃ fs', sv' = Some (VStruct name decl fs') ∧ length fs' = length fs
  | _ => sv' = sv
  end.

(** The parameters that have [name] and [greeting] as given and nothing
    else. *)
Definition helloParams (name greeting : option value) : graphql.ResolveParams :=
  graphql.mkResolveParams
    (match name with Some v => <["name" := v]> | None => id end
       (match greeting with Some v => {["greeting" := v]} | None => ∅ end)).

(** ** More structs and loaders for the examples *)

(** A loader func for ints, to go with [constString]. *)
Definition constInt (name : string) : GoFunc :=
  {| FuncName := name; Ins := [TInterface]; Outs := [TInt; TError];
     Body := λ _, Returns (VInt 7) None |}.

(** A loader func [func(s string) (string, error)]. *)
Definition typedString : GoFunc :=
  {| FuncName := "main.Typed"; Ins := [TString]; Outs := [TString; TError];
     Body := λ i, Returns i None |}.

(** A loader func that always fails. *)
Definition failing : GoFunc :=
  {| FuncName := "main.LoadFail"; Ins := [TInterface];
     Outs := [TString; TError];
     Body := λ _, Returns (VString "") (Some (Errorf "no" [])) |}.

Definition failLoader : ArgLoader :=
  (Register Empty (FuncVal failing) (Some graphql.String)).1.

(** [var args *helloArgs], the nil pointer. *)
Definition nilHelloArgs : iface :=
  Data (VPtr (StructOf "helloArgs" helloArgs) None).

(** A struct whose one argument is an unexported field:
[[
type hidden struct {
	name string `arg:"name"`
}
]] *)
Definition hiddenName : StructField :=
  mkStructField "name" "main" TString [("arg", "name")].

Definition newHidden : iface :=
  Data (VPtr (StructOf "hidden" [hiddenName])
          (Some (VStruct "hidden" [hiddenName] [VString ""]))).

(** A struct with two fields of the same argument name:
[[
type twice struct {
	First  string `arg:"x" desc:"first"`
	Second int    `arg:"x" desc:"second"`
}
]] *)
Definition twiceFirst : StructField :=
  mkStructField "First" "" TString [("arg", "x"); ("desc", "first")].

Definition twiceSecond : StructField :=
  mkStructField "Second" "" TInt [("arg", "x"); ("desc", "second")].

Definition aTwice : iface :=
  Data (VStruct "twice" [twiceFirst; twiceSecond] [VString ""; VInt 0]).

(** * Properties *)

(** ** The package initialises *)

Lemma init_ok : init = Return (Some defaultLoader).
Proof. reflexivity. Qed.

Lemma defaultLoader_gqlTypes :
  gqlTypes defaultLoader =
    {[ TBool := Some graphql.Boolean; TString := Some graphql.String;
       TInt := Some graphql.Int; TFloat64 := Some graphql.Float ]}.
Proof. vm_compute. reflexivity. Qed.

(** ** [Register] *)

(** [Register] on data: the nil interface makes it panic, all else is no
    func. *)
Lemma Register_Data e v gqlType :
  Register e (Data v) gqlType =
    match TypeOf_value v with
    | None => (e, Panic nilDereference)
    | Some _ => (e, Return (Some (Errorf "%v is not a func" [OValue v])))
    end.
Proof. unfold Register. by destruct v. Qed.

(** [Register] on a func value, by the signature of the func. *)
Lemma Register_FuncVal e f gqlType :
  Register e (FuncVal f) gqlType =
    if decide (length (Ins f) ≠ 1) then
      (e, Return (Some (Errorf
        "loader func should accept 1 interface{} argument. %v accepts %d arguments"
        [OString (FuncName f); OInt (Z.of_nat (length (Ins f)))])))
    else
      match Outs f with
      | [out0; out1] =>
          if negb (ImplementsError out1) then
            (e, Return (Some (Errorf
              "loader func's last return value should be error. %s's last return value is %v"
              [OString (FuncName f); OType out1])))
          else
            match loaderFuncs e !! out0 with
            | Some _ =>
                (e, Return (Some (Errorf
                  "a loader func has already been registered for the %v type.  cannot also register %s"
                  [OType out0; OString (FuncName f)])))
            | None =>
                ({| loaderFuncs :=
                      <[out0 := wrapped (FuncName f) (FuncVal f)]> (loaderFuncs e);
                    gqlTypes := <[out0 := gqlType]> (gqlTypes e) |},
                 Return None)
            end
      | outs =>
          (e, Return (Some (Errorf
            "loader func should return 2 arguments. %v returns %d arguments"
            [OString (FuncName f); OInt (Z.of_nat (length outs))])))
      end.
Proof.
  unfold Register; simpl.
  destruct (decide (reflect.Func ≠ reflect.Func)); [done|].
  destruct (decide (length (Ins f) ≠ 1)); [done|].
  by destruct (Outs f) as [|out0 [|out1 [|out2 outs]]].
Qed.

(** What a successful [Register] stores. *)
Lemma Register_ok_inv e f gqlType e' :
  Register e f gqlType = (e', Return None) →
  ∃ callable out0,
    f = FuncVal callable ∧ loaderSignature callable out0 ∧
    loaderFuncs e !! out0 = None ∧
    e' = {| loaderFuncs :=
              <[out0 := wrapped (FuncName callable) f]> (loaderFuncs e);
            gqlTypes := <[out0 := gqlType]> (gqlTypes e) |}.
Proof.
  destruct f as [v|callable].
  { rewrite Register_Data. destruct (TypeOf_value v); discriminate. }
  rewrite Register_FuncVal.
  destruct (decide (length (Ins callable) ≠ 1)) as [|Hin]; [discriminate|].
  destruct (Outs callable) as [|out0 [|out1 [|? ?]]] eqn:Hout; try discriminate.
  unfold ImplementsError.
  destruct (bool_decide_reflect (out1 = TError)) as [Herr|Herr]; simpl;
    [|discriminate].
  destruct (loaderFuncs e !! out0) eqn:Hl; intros [= <-].
  exists callable, out0. repeat split; try done.
  - apply dec_stable. exact Hin.
  - by subst.
Qed.

(** Whatever is not a success leaves the loader as it was. *)
Lemma Register_not_ok_same e f gqlType e' r :
  Register e f gqlType = (e', r) → r ≠ Return None → e' = e.
Proof.
  destruct f as [v|callable].
  { rewrite Register_Data. destruct (TypeOf_value v); by intros [= <- <-]. }
  rewrite Register_FuncVal.
  destruct (decide (length (Ins callable) ≠ 1)); [by intros [= <- <-]|].
  destruct (Outs callable) as [|out0 [|out1 [|? ?]]]; try by intros [= <- <-].
  destruct (negb (ImplementsError out1)); [by intros [= <- <-]|].
  destruct (loaderFuncs e !! out0); [by intros [= <- <-]|].
  by intros [= <- <-] Hr.
Qed.

(** On a converter, [Register] only looks at the map. *)
Lemma Register_loaderSignature e callable out0 gqlType :
  loaderSignature callable out0 →
  Register e (FuncVal callable) gqlType =
    match loaderFuncs e !! out0 with
    | Some _ =>
        (e, Return (Some (Errorf
           "a loader func has already been registered for the %v type.  cannot also register %s"
           [OType out0; OString (FuncName callable)])))
    | None =>
        ({| loaderFuncs :=
              <[out0 := wrapped (FuncName callable) (FuncVal callable)]>
                (loaderFuncs e);
            gqlTypes := <[out0 := gqlType]> (gqlTypes e) |},
         Return None)
    end.
Proof.
  intros [Hin Hout]. rewrite Register_FuncVal.
  destruct (decide (length (Ins callable) ≠ 1)); [done|].
  by rewrite Hout.
Qed.

(** An entry of the loader is never replaced, whatever is registered later. *)
Lemma Register_keeps_entries e f gqlType t w :
  loaderFuncs e !! t = Some w →
  loaderFuncs (Register e f gqlType).1 !! t = Some w.
Proof.
  intros Hw. destruct (Register e f gqlType) as [e' r] eqn:Hreg; simpl.
  destruct r as [[err|]|pv];
    [by rewrite (Register_not_ok_same _ _ _ _ _ Hreg)|
    |by rewrite (Register_not_ok_same _ _ _ _ _ Hreg)].
  destruct (Register_ok_inv _ _ _ _ Hreg) as (c & out0 & _ & _ & Hnone & ->).
  simpl. rewrite lookup_insert_ne; [done|]. intros ->. congruence.
Qed.

Lemma Register_error_inv e f gqlType e' err :
  Register e f gqlType = (e', Return (Some err)) → RegisterError e f err.
Proof.
  destruct f as [v|callable].
  { rewrite Register_Data.
    destruct (TypeOf_value v) eqn:Ht; intros [= _ <-]. by econstructor. }
  rewrite Register_FuncVal.
  destruct (decide (length (Ins callable) ≠ 1)) as [Hin|Hin].
  { intros [= _ <-]. by constructor. }
  apply dec_stable in Hin.
  destruct (Outs callable) as [|out0 [|out1 [|? ?]]] eqn:Hout;
    try (intros [= _ <-]; pose proof (WrongNumOut e callable Hin) as W;
         rewrite Hout in W; apply W; simpl; lia).
  unfold ImplementsError.
  destruct (bool_decide_reflect (out1 = TError)) as [->|Herr]; simpl.
  - destruct (loaderFuncs e !! out0) eqn:Hl; intros [= _ <-].
    by econstructor.
  - intros [= _ <-]. by econstructor.
Qed.

Lemma RegisterError_Register e f gqlType err :
  RegisterError e f err → Register e f gqlType = (e, Return (Some err)).
Proof.
  destruct 1 as [v t Ht|f Hin|f Hin Hout|f out0 out1 Hin Hout Herr|f out0 w Hsig Hw].
  - rewrite Register_Data. by rewrite Ht.
  - rewrite Register_FuncVal. by destruct (decide (length (Ins f) ≠ 1)).
  - rewrite Register_FuncVal. destruct (decide (length (Ins f) ≠ 1)); [done|].
    by destruct (Outs f) as [|? [|? [|? ?]]].
  - rewrite Register_FuncVal. destruct (decide (length (Ins f) ≠ 1)); [done|].
    rewrite Hout. unfold ImplementsError.
    by destruct (bool_decide_reflect (out1 = TError)).
  - rewrite (Register_loaderSignature _ _ _ _ Hsig). by rewrite Hw.
Qed.

(** C2.  Once a converter is registered, registering a second converter
    whose first output type is the same fails with the duplicate-type error,
    and the loader, in particular its converter for that type, stays the one
    the first registration stored. *)
Theorem Register_duplicate_rejected e f1 gqlType1 e1 f2 gqlType2 out0 :
  Register e (FuncVal f1) gqlType1 = (e1, Return None) →
  Outs f1 !! 0 = Some out0 →
  loaderSignature f2 out0 →
  Register e1 (FuncVal f2) gqlType2 =
    (e1, Return (Some (Errorf
       "a loader func has already been registered for the %v type.  cannot also register %s"
       [OType out0; OString (FuncName f2)])))
  ∧ loaderFuncs e1 !! out0 = Some (wrapped (FuncName f1) (FuncVal f1))
  ∧ gqlTypes e1 !! out0 = Some gqlType1.
Proof.
  intros Hreg Hout0 Hsig2.
  destruct (Register_ok_inv _ _ _ _ Hreg) as (c & t & Hc & [_ Hout] & _ & He1).
  injection Hc as <-. subst e1.
  rewrite Hout in Hout0. injection Hout0 as ->.
  rewrite (Register_loaderSignature _ _ _ _ Hsig2); simpl.
  by rewrite !lookup_insert_eq.
Qed.

Lemma Register_duplicate_rejected_witness :
  Register firstLoader (FuncVal (constString "main.second"))
      (Some graphql.String) =
    (firstLoader, Return (Some (Errorf
       "a loader func has already been registered for the %v type.  cannot also register %s"
       [OType TString; OString "main.second"])))
  ∧ loaderFuncs firstLoader !! TString =
      Some (wrapped "main.first" (FuncVal (constString "main.first")))
  ∧ gqlTypes firstLoader !! TString = Some None.
Proof.
  apply (Register_duplicate_rejected Empty (constString "main.first") None).
  - reflexivity.
  - reflexivity.
  - split; reflexivity.
Defined.

(** C10.  When [Register] returns an error, for whichever of its five
    reasons (not a func, wrong number of inputs, wrong number of outputs,
    last output not an error, type already registered), the two maps of the
    loader are what they were, and so they are when it panics; when it
    succeeds, both maps gain their entry under one and the same key, the
    first output type, which had no loader func before. *)
Theorem Register_error_leaves_maps e f gqlType :
  (∀ e' err,
     Register e f gqlType = (e', Return (Some err)) →
     RegisterError e f err ∧
     loaderFuncs e' = loaderFuncs e ∧ gqlTypes e' = gqlTypes e) ∧
  (∀ e' pv, Register e f gqlType = (e', Panic pv) → e' = e) ∧
  (∀ err, RegisterError e f err →
     Register e f gqlType = (e, Return (Some err))) ∧
  (∀ e',
     Register e f gqlType = (e', Return None) →
     ∃ callable out0,
       f = FuncVal callable ∧ Outs callable !! 0 = Some out0 ∧
       loaderFuncs e !! out0 = None ∧
       loaderFuncs e' =
         <[out0 := wrapped (FuncName callable) f]> (loaderFuncs e) ∧
       gqlTypes e' = <[out0 := gqlType]> (gqlTypes e)).
Proof.
  split; [|split; [|split]].
  - intros e' err Hreg. split; [by eapply Register_error_inv|].
    by rewrite (Register_not_ok_same _ _ _ _ _ Hreg).
  - intros e' pv Hreg. by apply (Register_not_ok_same _ _ _ _ _ Hreg).
  - intros err. apply RegisterError_Register.
  - intros e' Hreg.
    destruct (Register_ok_inv _ _ _ _ Hreg) as (c & out0 & -> & [_ Hout] & Hn & ->).
    exists c, out0. by rewrite Hout.
Qed.

Lemma Register_error_leaves_maps_witness :
  RegisterError defaultLoader (FuncVal (constString "main.second"))
    (Errorf
       "a loader func has already been registered for the %v type.  cannot also register %s"
       [OType TString; OString "main.second"]) ∧
  loaderFuncs defaultLoader = loaderFuncs defaultLoader ∧
  gqlTypes defaultLoader = gqlTypes defaultLoader.
Proof.
  apply (proj1 (Register_error_leaves_maps defaultLoader
                  (FuncVal (constString "main.second")) None) defaultLoader).
  reflexivity.
Defined.

(** ** The nil interface *)

(** C9.  With the nil interface as the record, [SafeArgsConfig] panics on
    [iType.Kind()], and with the nil interface as the destination [LoadArgs]
    panics on [pointerType.Kind()]: a method call on the nil [reflect.Type].
    Neither returns its "is not a struct" or "is not a pointer" error. *)
Theorem nil_interface_panics e p :
  SafeArgsConfig e (Data VNil) = Panic nilDereference ∧
  LoadArgs e p (Data VNil) = (Data VNil, Panic nilDereference).
Proof. split; reflexivity. Qed.

(** [ArgsConfig] passes the panic on, and [Register] panics on nil too. *)
Lemma ArgsConfig_nil e : ArgsConfig e (Data VNil) = Panic nilDereference.
Proof. reflexivity. Qed.

Lemma Register_nil e gqlType :
  Register e (Data VNil) gqlType = (e, Panic nilDereference).
Proof. reflexivity. Qed.

(** ** The built-in loader funcs *)

(** C7.  Each built-in loader func returns the raw value itself when its
    dynamic type is the type of the func, and the zero value of that type
    with the "is not a ..." error about the raw value in every other case;
    so an int is not made from a float64, nor a float64 from an int. *)
Theorem builtin_loaders_assert_type i :
  (* LoadBool *)
  (TypeOf_value i = Some TBool →
     ∃ b, i = VBool b ∧ LoadBool i = (b, None)) ∧
  (TypeOf_value i ≠ Some TBool →
     LoadBool i = (false, Some (Errorf "%v is not a bool" [OValue i]))) ∧
  (* LoadString *)
  (TypeOf_value i = Some TString →
     ∃ s, i = VString s ∧ LoadString i = (s, None)) ∧
  (TypeOf_value i ≠ Some TString →
     LoadString i = ("", Some (Errorf "%v is not a string" [OValue i]))) ∧
  (* LoadInt *)
  (TypeOf_value i = Some TInt →
     ∃ n, i = VInt n ∧ LoadInt i = (n, None)) ∧
  (TypeOf_value i ≠ Some TInt →
     LoadInt i = (0%Z, Some (Errorf "%v is not an int" [OValue i]))) ∧
  (* LoadFloat *)
  (TypeOf_value i = Some TFloat64 →
     ∃ x, i = VFloat64 x ∧ LoadFloat i = (x, None)) ∧
  (TypeOf_value i ≠ Some TFloat64 →
     LoadFloat i = (S754_zero false,
                    Some (Errorf "%v is not a float" [OValue i]))) ∧
  (* no coercion across numeric kinds *)
  (∀ x, LoadInt (VFloat64 x) =
          (0%Z, Some (Errorf "%v is not an int" [OValue (VFloat64 x)]))) ∧
  (∀ n, LoadFloat (VInt n) =
          (S754_zero false,
           Some (Errorf "%v is not a float" [OValue (VInt n)]))).
Proof.
  repeat split; try (destruct i; simpl; intros H; try done; eauto).
Qed.

Lemma builtin_loaders_assert_type_witness :
  (∃ n, VInt 42 = VInt n ∧ LoadInt (VInt 42) = (n, None)) ∧
  LoadBool (VInt 42) =
    (false, Some (Errorf "%v is not a bool" [OValue (VInt 42)])).
Proof.
  pose proof (builtin_loaders_assert_type (VInt 42))
    as (_ & Hbool & _ & _ & Hint & _).
  split; [apply Hint; reflexivity | apply Hbool; discriminate].
Defined.

(** The func that the loader stores returns where the call of the
    converter panics: the error of the panic if its value is not nil, and
    the zero Value with no error if it is nil. *)
Lemma wrapped_recovers fname callable i pv :
  Call callable i = Panics pv →
  wrapped fname callable i =
    if notNil pv then
      (None, Some (Errorf "%s panicked: %s" [OString fname; pv]))
    else (None, None).
Proof. intros H. unfold wrapped. by rewrite H. Qed.


(** [Call] passes the argument to a func that takes an [interface{}], unless
    the argument is nil. *)
Lemma Call_Body f i :
  Ins f = [TInterface] → i ≠ VNil → Call (FuncVal f) i = Body f i.
Proof.
  intros Hin Hi. unfold Call. rewrite Hin.
  destruct i; try done; simpl; unfold AssignableTo;
    by rewrite (bool_decide_eq_true_2 (TInterface = TInterface)), orb_true_r.
Qed.

(** The built-in loader funcs as they are registered: on a value of their
    type they hand the value on, on any other value, nil too, they return an
    error. *)
Lemma defaultLoader_string :
  ∃ w, loaderFuncs defaultLoader !! TString = Some w ∧
       (∀ s, w (VString s) = (Some (VString s), None)) ∧
       (∀ i, TypeOf_value i ≠ Some TString → ∃ err, w i = (None, Some err)).
Proof.
  eexists. split; [reflexivity|]. split; [done|].
  intros i Hi. destruct i; try done; eexists; reflexivity.
Qed.

(** ** [LoadArgs]: the loop *)

(** [LoadArgs] on a pointer to a struct is its loop over the fields. *)
Lemma LoadArgs_struct_ptr e p name decl target :
  LoadArgs e p (Data (VPtr (StructOf name decl) target)) =
    (Data (VPtr (StructOf name decl) (loadFields e p decl 0 target).1),
     (loadFields e p decl 0 target).2).
Proof.
  unfold LoadArgs; simpl.
  by destruct (loadFields e p decl 0 target).
Qed.

(** The loop over [pre ++ rest] runs over [pre] and, unless that ends the
    call, goes on over [rest]. *)
Lemma loadFields_app e p pre rest : ∀ i sv,
  loadFields e p (pre ++ rest) i sv =
    match loadFields e p pre i sv with
    | (sv', Return None) => loadFields e p rest (i + length pre) sv'
    | r => r
    end.
Proof.
  induction pre as [|field pre IH]; intros i sv; simpl.
  { by rewrite Nat.add_0_r. }
  rewrite <- Nat.add_succ_comm.
  destruct (Lookup (Tag field) argTag) as [argKey|]; [|apply IH].
  destruct (graphql.Args p !! argKey) as [interfaceVal|].
  - destruct (loaderFuncs e !! Type_ field) as [loaderFunc|]; [|done].
    destruct (loaderFunc interfaceVal) as [toSet [err|]]; [done|].
    destruct (FieldSet sv field i toSet); [apply IH|done].
  - destruct (Lookup (Tag field) requiredTag) as [requiredVal|]; [|apply IH].
    destruct (strconv.ParseBool requiredVal) as [[|] [err|]]; try done;
      apply IH.
Qed.

(** Fields that are passed over leave the struct alone and end nothing. *)
Lemma loadFields_skipped e p fields : ∀ i sv,
  forallb (skipped p) fields = true →
  loadFields e p fields i sv = (sv, Return None).
Proof.
  induction fields as [|field fields IH]; intros i sv; simpl; [done|].
  rewrite andb_true_iff. intros [Hf Hrest]. unfold skipped in Hf.
  destruct (Lookup (Tag field) argTag) as [argKey|]; [|by apply IH].
  destruct (graphql.Args p !! argKey); [done|].
  destruct (Lookup (Tag field) requiredTag) as [requiredVal|]; [|by apply IH].
  destruct (strconv.ParseBool requiredVal) as [[|] [err|]]; try done;
    by apply IH.
Qed.

(** One round of the loop on a field without the [arg] tag. *)
Lemma loadFields_untagged e p field rest i sv :
  Lookup (Tag field) argTag = None →
  loadFields e p (field :: rest) i sv = loadFields e p rest (S i) sv.
Proof. intros H. simpl. by rewrite H. Qed.

(** One round of the loop on a field whose argument is missing and whose
    [required] tag parses to true. *)
Lemma loadFields_required_missing e p field rest i sv argKey requiredVal :
  Lookup (Tag field) argTag = Some argKey →
  Lookup (Tag field) requiredTag = Some requiredVal →
  strconv.ParseBool requiredVal = (true, None) →
  graphql.Args p !! argKey = None →
  loadFields e p (field :: rest) i sv =
    (sv, Return (Some (Errorf "%s is required" [OString argKey]))).
Proof. intros Harg Hreq Hparse Hp. simpl. by rewrite Harg, Hp, Hreq, Hparse. Qed.

(** One round of the loop on a field whose argument is in [p.Args]: the
    [required] tag plays no part. *)
Lemma loadFields_present e p field rest i sv argKey interfaceVal :
  Lookup (Tag field) argTag = Some argKey →
  graphql.Args p !! argKey = Some interfaceVal →
  loadFields e p (field :: rest) i sv =
    match loaderFuncs e !! Type_ field with
    | None =>
        (sv, Return (Some (Errorf "no loader function found for type %v"
                             [OType (Type_ field)])))
    | Some loaderFunc =>
        match loaderFunc interfaceVal with
        | (_, Some err) =>
            (sv, Return (Some (Errorf "cannot populate %s: %v"
                                 [OString (Name field); OError err])))
        | (toSet, None) =>
            match FieldSet sv field i toSet with
            | Panic pv => (sv, Panic pv)
            | Return sv' => loadFields e p rest (S i) sv'
            end
        end
    end.
Proof. intros Harg Hp. simpl. by rewrite Harg, Hp. Qed.

(** [Set] on field [i] leaves the other fields alone. *)
Lemma FieldSet_other sv field i toSet sv' k :
  FieldSet sv field i toSet = Return sv' → k ≠ i →
  structField sv' k = structField sv k.
Proof.
  unfold FieldSet. destruct sv as [[| | | | |name decl fs|]|]; try done.
  destruct (decide (PkgPath field = "")); [|done].
  destruct toSet as [x|]; [|done]. intros [= <-] Hk; simpl.
  by rewrite list_lookup_insert_ne.
Qed.

(** The loop changes field [k] only if [k] is the index of one of its fields
    and that field has its argument in [p.Args]. *)
Lemma loadFields_frame e p fields (k : nat) : ∀ (i : nat) sv,
  (∀ field, (i ≤ k)%nat → fields !! (k - i)%nat = Some field →
            notSet p field = true) →
  structField (loadFields e p fields i sv).1 k = structField sv k.
Proof.
  induction fields as [|field fields IH]; intros i sv Hk; simpl; [done|].
  assert (Hrest : ∀ sv', structField (loadFields e p fields (S i) sv').1 k
                         = structField sv' k).
  { intros sv'. apply IH. intros f Hle Hf. apply Hk; [lia|].
    replace (k - i) with (S (k - S i)) by lia. exact Hf. }
  destruct (Lookup (Tag field) argTag) as [argKey|] eqn:Harg; [|apply Hrest].
  destruct (graphql.Args p !! argKey) as [interfaceVal|] eqn:Hp.
  - destruct (loaderFuncs e !! Type_ field) as [loaderFunc|]; [|done].
    destruct (loaderFunc interfaceVal) as [toSet [err|]]; [done|].
    destruct (FieldSet sv field i toSet) as [sv'|pv] eqn:Hset; [|done].
    rewrite Hrest. apply (FieldSet_other _ _ _ _ _ _ Hset).
    intros ->. specialize (Hk field (le_n _)).
    rewrite Nat.sub_diag in Hk. specialize (Hk eq_refl).
    unfold notSet in Hk. rewrite Harg in Hk.
    apply bool_decide_eq_true in Hk. congruence.
  - destruct (Lookup (Tag field) requiredTag) as [requiredVal|]; [|apply Hrest].
    destruct (strconv.ParseBool requiredVal) as [[|] [err|]]; try done;
      apply Hrest.
Qed.

Lemma fieldValue_structField elem target k :
  fieldValue (Data (VPtr elem target)) k = structField target k.
Proof. by destruct target as [[]|]. Qed.

(** Whatever [LoadArgs] does, a field with no [arg] tag or with its argument
    missing from [p.Args] holds afterwards what it held before. *)
Lemma LoadArgs_frame e p name decl target k field :
  decl !! k = Some field → notSet p field = true →
  fieldValue (LoadArgs e p (Data (VPtr (StructOf name decl) target))).1 k =
    fieldValue (Data (VPtr (StructOf name decl) target)) k.
Proof.
  intros Hk Hn. rewrite LoadArgs_struct_ptr.
  rewrite !fieldValue_structField. apply loadFields_frame.
  intros f _. rewrite Nat.sub_0_r, Hk. by intros [= <-].
Qed.

(** When every field is loadable, the loop over a struct ends without an
    error. *)
Lemma loadFields_loadable e p fields : ∀ i name decl fs,
  forallb (loadable e p) fields = true →
  ∃ fs', loadFields e p fields i (Some (VStruct name decl fs)) =
           (Some (VStruct name decl fs'), Return None).
Proof.
  induction fields as [|field fields IH]; intros i name decl fs; simpl.
  { intros _. by exists fs. }
  rewrite andb_true_iff. intros [Hf Hrest].
  unfold loadable, skipped in Hf.
  destruct (Lookup (Tag field) argTag) as [argKey|]; [|by apply IH].
  destruct (graphql.Args p !! argKey) as [interfaceVal|].
  - simpl in Hf.
    destruct (loaderFuncs e !! Type_ field) as [loaderFunc|]; [|done].
    destruct (loaderFunc interfaceVal) as [[x|] [err|]]; try done.
    apply bool_decide_eq_true in Hf.
    destruct (decide (PkgPath field = "")); [|done]. by apply IH.
  - destruct (Lookup (Tag field) requiredTag) as [requiredVal|]; [|by apply IH].
    destruct (strconv.ParseBool requiredVal) as [[|] [err|]]; try done;
      by apply IH.
Qed.

(** ** [LoadArgs]: required and optional arguments *)

(** Fields that are not written leave the struct as it is. *)
Lemma loadFields_notSet e p fields : ∀ i sv,
  forallb (notSet p) fields = true → (loadFields e p fields i sv).1 = sv.
Proof.
  induction fields as [|field fields IH]; intros i sv; simpl; [done|].
  rewrite andb_true_iff. intros [Hf Hrest]. unfold notSet in Hf.
  destruct (Lookup (Tag field) argTag) as [argKey|]; [|by apply IH].
  apply bool_decide_eq_true in Hf. rewrite Hf.
  destruct (Lookup (Tag field) requiredTag) as [requiredVal|]; [|by apply IH].
  destruct (strconv.ParseBool requiredVal) as [[|] [err|]]; try done;
    by apply IH.
Qed.

(** C1, amended.  When a field with an [arg] tag and a [required] tag that
    parses to true has no entry in [p.Args] and the loop reaches it, that
    is, the fields declared before it are handled without failure,
    [LoadArgs] returns the "... is required" error for this field, and the
    destination is as the fields before left it: a field is written only if
    it is declared before this one and has its argument in [p.Args]; so no
    field is written when no earlier field has its argument there.  When
    the loop does not reach the field, an earlier field has ended the call
    with its own error or panic, which is the result of [LoadArgs]:
    [LoadArgs] succeeds in no case. *)
Theorem LoadArgs_required_missing e p name pre field post target argKey
    requiredVal :
  Lookup (Tag field) argTag = Some argKey →
  Lookup (Tag field) requiredTag = Some requiredVal →
  strconv.ParseBool requiredVal = (true, None) →
  graphql.Args p !! argKey = None →
  let c := Data (VPtr (StructOf name (pre ++ field :: post)) target) in
  (∀ target',
     loadFields e p pre 0 target = (target', Return None) →
     LoadArgs e p c =
       (Data (VPtr (StructOf name (pre ++ field :: post)) target'),
        Return (Some (Errorf "%s is required" [OString argKey])))) ∧
  (∀ target' r,
     loadFields e p pre 0 target = (target', r) → r ≠ Return None →
     LoadArgs e p c =
       (Data (VPtr (StructOf name (pre ++ field :: post)) target'), r)) ∧
  (∀ k : nat,
     (length pre ≤ k)%nat ∨ (∃ f, pre !! k = Some f ∧ notSet p f = true) →
     fieldValue (LoadArgs e p c).1 k = fieldValue c k) ∧
  (forallb (notSet p) pre = true → (LoadArgs e p c).1 = c) ∧
  (forallb (skipped p) pre = true →
     LoadArgs e p c =
       (c, Return (Some (Errorf "%s is required" [OString argKey])))) ∧
  (LoadArgs e p c).2 ≠ Return None.
Proof.
  intros Harg Hreq Hparse Hp c. unfold c.
  assert (Hstep : ∀ sv', loadFields e p (field :: post) (0 + length pre) sv' =
            (sv', Return (Some (Errorf "%s is required" [OString argKey]))))
    by (intros sv'; by apply loadFields_required_missing with requiredVal).
  assert (Hfst : (loadFields e p (pre ++ field :: post) 0 target).1 =
                 (loadFields e p pre 0 target).1).
  { rewrite loadFields_app.
    destruct (loadFields e p pre 0 target) as [sv' [[err|]|pv]]; try done.
    cbv beta iota. by rewrite Hstep. }
  split; [|split; [|split; [|split; [|split]]]].
  - intros target' Hpre.
    rewrite LoadArgs_struct_ptr, loadFields_app, Hpre. cbv beta iota.
    by rewrite Hstep.
  - intros target' r Hpre Hr.
    rewrite LoadArgs_struct_ptr, loadFields_app, Hpre.
    by destruct r as [[err|]|pv].
  - intros k Hk. rewrite LoadArgs_struct_ptr. cbn [fst].
    rewrite !fieldValue_structField, Hfst.
    apply loadFields_frame. intros f _ Hf. rewrite Nat.sub_0_r in Hf.
    destruct Hk as [Hk|(f' & Hf' & Hn)].
    + apply lookup_lt_Some in Hf. lia.
    + congruence.
  - intros Hn. rewrite LoadArgs_struct_ptr. cbn [fst].
    by rewrite Hfst, loadFields_notSet.
  - intros Hskip. rewrite LoadArgs_struct_ptr, loadFields_app.
    rewrite (loadFields_skipped _ _ _ _ _ Hskip). cbv beta iota.
    by rewrite Hstep.
  - rewrite LoadArgs_struct_ptr, loadFields_app. cbn [snd].
    destruct (loadFields e p pre 0 target) as [sv' [[err|]|pv]]; try done.
    cbv beta iota. by rewrite Hstep.
Qed.

Lemma LoadArgs_required_missing_witness :
  LoadArgs defaultLoader (params [("greeting", VString "Hi")]) newGreetingFirst =
    (Data (VPtr (StructOf "helloArgs" greetingFirst)
       (Some (VStruct "helloArgs" greetingFirst [VString "Hi"; VString ""]))),
     Return (Some (Errorf "%s is required" [OString "name"]))).
Proof.
  refine (proj1 (LoadArgs_required_missing defaultLoader
            (params [("greeting", VString "Hi")]) "helloArgs" [helloGreeting]
            helloName []
            (Some (VStruct "helloArgs" greetingFirst [VString ""; VString ""]))
            "name" "true" _ _ _ _) _ _);
    reflexivity.
Defined.

(** C1 as stated fails: [Name] is required and missing from the map, the call
    returns the "is required" error, and [Greeting], declared before [Name],
    has been written. *)
Lemma LoadArgs_required_missing_mutates :
  (helloName ∈ greetingFirst ∧
   Lookup (Tag helloName) argTag = Some "name" ∧
   Lookup (Tag helloName) requiredTag = Some "true" ∧
   strconv.ParseBool "true" = (true, None) ∧
   graphql.Args (params [("greeting", VString "Hi")]) !! "name" = None) ∧
  LoadArgs defaultLoader (params [("greeting", VString "Hi")]) newGreetingFirst =
    (Data (VPtr (StructOf "helloArgs" greetingFirst)
       (Some (VStruct "helloArgs" greetingFirst [VString "Hi"; VString ""]))),
     Return (Some (Errorf "%s is required" [OString "name"]))) ∧
  fieldValue (LoadArgs defaultLoader (params [("greeting", VString "Hi")])
                newGreetingFirst).1 0
    ≠ fieldValue newGreetingFirst 0.
Proof.
  split; [|split].
  - repeat split; try reflexivity. apply list_elem_of_In. simpl. auto.
  - reflexivity.
  - vm_compute. discriminate.
Qed.

(** C4, amended.  For a field with an [arg] tag whose [required] tag does
    not parse as a boolean: when its argument is missing from [p.Args] and
    the loop reaches the field, [LoadArgs] returns the "is not a valid
    'required' tag value" error; when its argument is in [p.Args], the
    [required] tag is not looked at: the call goes as for any field of the
    same name, package path, type and [arg] tag. *)
Theorem LoadArgs_invalid_required_tag e p name pre field post target argKey
    requiredVal b err :
  Lookup (Tag field) argTag = Some argKey →
  Lookup (Tag field) requiredTag = Some requiredVal →
  strconv.ParseBool requiredVal = (b, Some err) →
  let c := Data (VPtr (StructOf name (pre ++ field :: post)) target) in
  (graphql.Args p !! argKey = None →
   ∀ target', loadFields e p pre 0 target = (target', Return None) →
     LoadArgs e p c =
       (Data (VPtr (StructOf name (pre ++ field :: post)) target'),
        Return (Some (Errorf "%s is not a valid 'required' tag value"
                        [OString requiredVal])))) ∧
  (∀ interfaceVal field',
     graphql.Args p !! argKey = Some interfaceVal →
     Lookup (Tag field') argTag = Some argKey →
     Name field' = Name field → PkgPath field' = PkgPath field →
     Type_ field' = Type_ field →
     let c' := Data (VPtr (StructOf name (pre ++ field' :: post)) target) in
     (LoadArgs e p c).2 = (LoadArgs e p c').2 ∧
     targetOf (LoadArgs e p c).1 = targetOf (LoadArgs e p c').1).
Proof.
  intros Harg Hreq Hparse c. unfold c. split.
  - intros Hp target' Hpre.
    rewrite LoadArgs_struct_ptr, loadFields_app, Hpre. cbv beta iota.
    simpl. by rewrite Harg, Hp, Hreq, Hparse.
  - intros interfaceVal field' Hp Harg' HName HPkg HType. cbv zeta.
    rewrite !LoadArgs_struct_ptr, !loadFields_app.
    destruct (loadFields e p pre 0 target) as [sv' [[e'|]|pv]]; try done.
    rewrite (loadFields_present _ _ _ _ _ _ _ _ Harg Hp).
    rewrite (loadFields_present _ _ _ _ _ _ _ _ Harg' Hp).
    rewrite HName, HType. unfold FieldSet. by rewrite HPkg.
Qed.

Lemma LoadArgs_invalid_required_tag_witness :
  LoadArgs defaultLoader (params []) newMaybeArgs =
    (newMaybeArgs,
     Return (Some (Errorf "%s is not a valid 'required' tag value"
                     [OString "maybe"]))).
Proof.
  refine (proj1 (LoadArgs_invalid_required_tag defaultLoader (params [])
            "maybeArgs" [] maybeName [] (maybeValue "") "name" "maybe" false
            (Errorf "strconv.ParseBool: parsing %q: invalid syntax"
               [OString "maybe"]) _ _ _) _ _ _); reflexivity.
Defined.

(** C4 as stated fails: the [required] tag of [Name] is no boolean, its
    argument is in the map, and [LoadArgs] populates the field and returns
    no error. *)
Lemma LoadArgs_invalid_required_tag_unchecked :
  (Lookup (Tag maybeName) requiredTag = Some "maybe" ∧
   (strconv.ParseBool "maybe").2 ≠ None) ∧
  LoadArgs defaultLoader (params [("name", VString "Joe")]) newMaybeArgs =
    (Data (VPtr (StructOf "maybeArgs" [maybeName]) (maybeValue "Joe")),
     Return None).
Proof. repeat split; try reflexivity. vm_compute. discriminate. Qed.

(** C6, amended.  A field with an [arg] tag whose argument is missing from
    [p.Args] keeps its value, whatever becomes of the call.  When its
    [required] tag is missing or parses to false, [LoadArgs] on a pointer to a
    struct returns no error provided every other field is loadable: it has no
    [arg] tag; or its argument is missing and its [required] tag is missing or
    parses to false; or its argument is there, a loader func is registered
    for its type and converts the argument, and the field is exported.  This
    asks of the optional fields what the claim asks of the required ones. *)
Theorem LoadArgs_optional_missing e p name pre field post name' decl' fs argKey :
  Lookup (Tag field) argTag = Some argKey →
  graphql.Args p !! argKey = None →
  let c := Data (VPtr (StructOf name (pre ++ field :: post))
                   (Some (VStruct name' decl' fs))) in
  fieldValue (LoadArgs e p c).1 (length pre) = fieldValue c (length pre) ∧
  (skipped p field = true →
   forallb (loadable e p) (pre ++ post) = true →
   (LoadArgs e p c).2 = Return None).
Proof.
  intros Harg Hp c. split.
  - apply LoadArgs_frame with field.
    + by rewrite lookup_app_r, Nat.sub_diag.
    + unfold notSet. rewrite Harg. by apply bool_decide_eq_true.
  - intros Hskip Hall. unfold c. rewrite LoadArgs_struct_ptr.
    destruct (loadFields_loadable e p (pre ++ field :: post) 0 name' decl' fs)
      as [fs' ->]; [|done].
    rewrite forallb_app in Hall. apply andb_true_iff in Hall as [Hpre Hpost].
    rewrite forallb_app. simpl. rewrite Hpre, Hpost.
    unfold loadable. by rewrite Hskip.
Qed.

Lemma LoadArgs_optional_missing_witness :
  fieldValue (LoadArgs defaultLoader (params [("name", VString "Joe")])
                newHelloArgs).1 1
    = fieldValue newHelloArgs 1 ∧
  (LoadArgs defaultLoader (params [("name", VString "Joe")]) newHelloArgs).2
    = Return None.
Proof.
  pose proof (LoadArgs_optional_missing defaultLoader
                (params [("name", VString "Joe")]) "helloArgs" [helloName]
                helloGreeting [] "helloArgs" helloArgs [VString ""; VString ""]
                "greeting" eq_refl eq_refl) as [Hkeep Hok].
  split; [exact Hkeep | apply Hok; reflexivity].
Defined.

(** C6 as stated fails: [Greeting] is optional and missing, the one required
    field, [Name], has its argument and it converts, and [LoadArgs] returns
    an error, for the optional [Count], whose argument is no int. *)
Lemma LoadArgs_optional_missing_fails :
  (helloGreeting ∈ countedHello ∧
   Lookup (Tag helloGreeting) argTag = Some "greeting" ∧
   graphql.Args (params [("name", VString "Joe"); ("count", VString "many")])
     !! "greeting" = None ∧
   Lookup (Tag helloGreeting) requiredTag = None ∧
   forallb (requiredSatisfied defaultLoader
              (params [("name", VString "Joe"); ("count", VString "many")]))
     countedHello = true) ∧
  (LoadArgs defaultLoader
     (params [("name", VString "Joe"); ("count", VString "many")])
     newCountedHello).2 =
    Return (Some (Errorf "cannot populate %s: %v"
      [OString "Count";
       OError (Errorf "%v"
         [OError (Errorf "%v is not an int" [OValue (VString "many")])])])).
Proof.
  split; [|reflexivity].
  repeat split; try reflexivity. apply list_elem_of_In. simpl. auto.
Qed.

(** ** [LoadArgs]: converters that panic *)




(** A nil argument never reaches the converter: [Call] panics on it, and the
    loader returns that as the error of the field. *)
Lemma LoadArgs_nil_argument :
  LoadArgs defaultLoader (params [("name", VNil)]) newHelloArgs =
    (newHelloArgs,
     Return (Some (Errorf "cannot populate %s: %v"
       [OString "Name";
        OError (Errorf "%s panicked: %s"
          [OString "github.com/btubbs/graphql-go-helpers.LoadString";
           OString "reflect: Call using zero Value argument"])]))).
Proof. reflexivity. Qed.

(** ** [SafeArgsConfig] *)

(** On a struct and on a pointer to a struct, [SafeArgsConfig] is its loop
    over the fields of the struct type. *)
Lemma SafeArgsConfig_struct e i name decl :
  TypeOf i = Some (StructOf name decl) ∨
  TypeOf i = Some (PtrTo (StructOf name decl)) →
  SafeArgsConfig e i = Return (Some (argsConfigLoop e decl), None).
Proof. intros [H|H]; unfold SafeArgsConfig; by rewrite H. Qed.

Lemma ArgsConfig_struct e i name decl :
  TypeOf i = Some (StructOf name decl) ∨
  TypeOf i = Some (PtrTo (StructOf name decl)) →
  ArgsConfig e i = Return (Some (argsConfigLoop e decl)).
Proof.
  intros H. unfold ArgsConfig. by rewrite (SafeArgsConfig_struct _ _ _ _ H).
Qed.

(** An input that is not nil and neither a struct nor a pointer to one gets
    the "is not a struct" error. *)
Lemma SafeArgsConfig_not_struct e i t :
  TypeOf i = Some t →
  Kind t ≠ reflect.Struct →
  (∀ elem, t = PtrTo elem → Kind elem ≠ reflect.Struct) →
  SafeArgsConfig e i =
    Return (None, Some (Errorf "%v is not a struct" [operandOf i])).
Proof.
  intros Ht Hk Hptr. unfold SafeArgsConfig. rewrite Ht. simpl.
  destruct t as [| | | | | |elem|name decl|ins outs]; simpl in *; try done.
  specialize (Hptr elem eq_refl).
  by destruct (decide (Kind elem ≠ reflect.Struct)).
Qed.

Lemma argsConfigLoop_app e pre rest :
  argsConfigLoop e (pre ++ rest) =
    foldl (argsConfigStep e) (argsConfigLoop e pre) rest.
Proof. unfold argsConfigLoop. apply foldl_app. Qed.

Lemma argsConfigStep_untagged e out field :
  Lookup (Tag field) argTag = None → argsConfigStep e out field = out.
Proof. intros H. unfold argsConfigStep. by rewrite H. Qed.

(** Fields declared later keep an entry unless one of them has the same
    argument name. *)
Lemma argsConfig_later_fields e k rest : ∀ out,
  Forall (λ f, Lookup (Tag f) argTag ≠ Some k) rest →
  foldl (argsConfigStep e) out rest !! k = out !! k.
Proof.
  induction rest as [|f rest IH]; intros out Hall; simpl; [done|].
  inversion Hall as [|? ? Hf Hrest]; subst. rewrite (IH _ Hrest).
  unfold argsConfigStep. destruct (Lookup (Tag f) argTag) as [k'|]; [|done].
  rewrite lookup_insert_ne; [done|]. intros ->. by apply Hf.
Qed.

(** C5.  A field without the [arg] tag takes no part.  [SafeArgsConfig] and
    [ArgsConfig] give the schema of the struct without that field, so the
    schema has no entry for it and does not depend on its other tags or its
    type.  [LoadArgs] leaves the value of the field as it was, and its result
    and what it writes are the same whatever the other tags, the name and the
    type of the field are. *)
Theorem untagged_field_untouched e p name pre field post :
  Lookup (Tag field) argTag = None →
  (∀ i,
     TypeOf i = Some (StructOf name (pre ++ field :: post)) ∨
     TypeOf i = Some (PtrTo (StructOf name (pre ++ field :: post))) →
     SafeArgsConfig e i = Return (Some (argsConfigLoop e (pre ++ post)), None) ∧
     ArgsConfig e i = Return (Some (argsConfigLoop e (pre ++ post)))) ∧
  (∀ target,
     let c := Data (VPtr (StructOf name (pre ++ field :: post)) target) in
     fieldValue (LoadArgs e p c).1 (length pre) = fieldValue c (length pre) ∧
     ∀ field', Lookup (Tag field') argTag = None →
       let c' := Data (VPtr (StructOf name (pre ++ field' :: post)) target) in
       (LoadArgs e p c').2 = (LoadArgs e p c).2 ∧
       targetOf (LoadArgs e p c').1 = targetOf (LoadArgs e p c).1).
Proof.
  intros Harg. split.
  - intros i Hi.
    rewrite (SafeArgsConfig_struct _ _ _ _ Hi), (ArgsConfig_struct _ _ _ _ Hi).
    rewrite !argsConfigLoop_app. simpl.
    by rewrite (argsConfigStep_untagged _ _ _ Harg).
  - intros target c. split.
    + apply LoadArgs_frame with field.
      * by rewrite lookup_app_r, Nat.sub_diag.
      * unfold notSet. by rewrite Harg.
    + intros field' Harg'. cbv zeta. unfold c.
      rewrite !LoadArgs_struct_ptr, !loadFields_app.
      destruct (loadFields e p pre 0 target) as [sv' [[err|]|pv]]; try done.
      by rewrite !loadFields_untagged.
Qed.

Lemma untagged_field_untouched_witness :
  SafeArgsConfig defaultLoader aWithSecret =
    Return (Some (argsConfigLoop defaultLoader [plainName]), None) ∧
  fieldValue (LoadArgs defaultLoader (params [("name", VString "Joe")])
                aWithSecret).1 1
    = fieldValue aWithSecret 1.
Proof.
  pose proof (untagged_field_untouched defaultLoader
                (params [("name", VString "Joe")]) "withSecret" [plainName]
                secret [] eq_refl) as [Hschema Hload].
  split.
  - apply (Hschema aWithSecret). right. reflexivity.
  - apply (Hload secretValue).
Defined.

(** C8, amended.  On a struct and on a pointer to a struct [SafeArgsConfig]
    returns a schema and no error, whether or not the types of the fields
    have a wire-type registered.  For an [arg]-tagged field whose type has
    none, the loop writes under the argument name an entry with the nil
    wire-type and the [desc] tag of the field, which is the entry of the
    schema unless a field declared later has the same argument name.  An
    input that is not the nil interface and is neither a struct nor a pointer
    to a struct yields the "is not a struct" error; on the nil interface
    [SafeArgsConfig] panics. *)
Theorem SafeArgsConfig_unregistered_type e :
  (∀ i name decl,
     TypeOf i = Some (StructOf name decl) ∨
     TypeOf i = Some (PtrTo (StructOf name decl)) →
     SafeArgsConfig e i = Return (Some (argsConfigLoop e decl), None)) ∧
  (∀ pre field post argName,
     Lookup (Tag field) argTag = Some argName →
     gqlTypes e !! Type_ field = None →
     let entry := {| graphql.Type' := None;
                     graphql.Description := Get (Tag field) descTag |} in
     argsConfigLoop e (pre ++ field :: post) =
       foldl (argsConfigStep e) (<[argName := entry]> (argsConfigLoop e pre)) post
     ∧ (Forall (λ f, Lookup (Tag f) argTag ≠ Some argName) post →
        argsConfigLoop e (pre ++ field :: post) !! argName = Some entry)) ∧
  (∀ i t,
     TypeOf i = Some t →
     Kind t ≠ reflect.Struct →
     (∀ elem, t = PtrTo elem → Kind elem ≠ reflect.Struct) →
     SafeArgsConfig e i =
       Return (None, Some (Errorf "%v is not a struct" [operandOf i]))) ∧
  SafeArgsConfig e (Data VNil) = Panic nilDereference.
Proof.
  split; [|split; [|split]].
  - intros i name decl. apply SafeArgsConfig_struct.
  - intros pre field post argName Harg Hty entry.
    assert (Heq : argsConfigLoop e (pre ++ field :: post) =
       foldl (argsConfigStep e) (<[argName := entry]> (argsConfigLoop e pre)) post).
    { rewrite argsConfigLoop_app. simpl. f_equal.
      unfold argsConfigStep. rewrite Harg, Hty. reflexivity. }
    split; [exact Heq|]. intros Hpost.
    rewrite Heq, (argsConfig_later_fields _ _ _ _ Hpost).
    apply lookup_insert_eq.
  - intros i t. apply SafeArgsConfig_not_struct.
  - reflexivity.
Qed.

Lemma SafeArgsConfig_unregistered_type_witness :
  SafeArgsConfig defaultLoader aPage =
    Return (Some (argsConfigLoop defaultLoader [pageTitle; pageNext]), None) ∧
  argsConfigLoop defaultLoader [pageTitle; pageNext] !! "next" =
    Some {| graphql.Type' := None; graphql.Description := "Where to go on" |} ∧
  SafeArgsConfig defaultLoader (Data (VInt 3)) =
    Return (None, Some (Errorf "%v is not a struct" [OValue (VInt 3)])).
Proof.
  destruct (SafeArgsConfig_unregistered_type defaultLoader) as (Hs & He & Hn & _).
  split; [|split].
  - apply (Hs _ "page" [pageTitle; pageNext]). left. reflexivity.
  - apply (proj2 (He [pageTitle] pageNext [] "next" eq_refl eq_refl)).
    constructor.
  - apply (Hn (Data (VInt 3)) TInt); [reflexivity|discriminate|discriminate].
Defined.

(** C8 as stated fails on the nil interface, which is no struct and gets no
    "is not a struct" error: [SafeArgsConfig] panics. *)
Lemma SafeArgsConfig_nil_no_error :
  TypeOf (Data VNil) = None ∧
  SafeArgsConfig defaultLoader (Data VNil) = Panic nilDereference ∧
  SafeArgsConfig defaultLoader (Data VNil) ≠
    Return (None, Some (Errorf "%v is not a struct" [OValue VNil])).
Proof. repeat split; try reflexivity. discriminate. Qed.

(** ** The examples of the demonstration program *)

(** Both arguments given: both fields are populated. *)
Example hello_both :
  LoadArgs defaultLoader
    (params [("name", VString "Joe"); ("greeting", VString "Goodbye")])
    newHelloArgs =
  (Data (VPtr (StructOf "helloArgs" helloArgs) (helloValue "Joe" "Goodbye")),
   Return None).
Proof. reflexivity. Qed.

(** An argument of the wrong type. *)
Example hello_wrong_type :
  LoadArgs defaultLoader (params [("name", VInt 42)]) newHelloArgs =
  (newHelloArgs,
   Return (Some (Errorf "cannot populate %s: %v"
     [OString "Name";
      OError (Errorf "%v"
        [OError (Errorf "%v is not a string" [OValue (VInt 42)])])]))).
Proof. reflexivity. Qed.

(** The schema of [helloArgs]: two string arguments with their
    descriptions. *)
Example hello_schema :
  ArgsConfig defaultLoader (Data (VStruct "helloArgs" helloArgs
                                    [VString ""; VString ""])) =
  Return (Some
    {[ "name" := {| graphql.Type' := Some graphql.String;
                    graphql.Description := "Your name" |};
       "greeting" := {| graphql.Type' := Some graphql.String;
                        graphql.Description := "How to say hello" |} ]}).
Proof.
  rewrite (ArgsConfig_struct _ _ "helloArgs" helloArgs) by (left; reflexivity).
  vm_compute. reflexivity.
Qed.

(** * More properties of the code *)

(** ** [Register], [New] and [init] *)

(** X1.  [Register] keeps the two maps of the loader on the same keys: if
    the loader funcs and the wire-types are registered for the same types
    before the call, they are after it, whatever the call returns.  [Empty]
    starts that way. *)
Theorem Register_same_keys e f gqlType :
  dom (loaderFuncs e) = dom (gqlTypes e) →
  dom (loaderFuncs (Register e f gqlType).1) =
    dom (gqlTypes (Register e f gqlType).1).
Proof.
  intros Hdom. destruct (Register e f gqlType) as [e' r] eqn:Hreg; simpl.
  destruct r as [[err|]|pv];
    [by rewrite (Register_not_ok_same _ _ _ _ _ Hreg)|
    |by rewrite (Register_not_ok_same _ _ _ _ _ Hreg)].
  destruct (Register_ok_inv _ _ _ _ Hreg) as (c & out0 & _ & _ & _ & ->).
  simpl. by rewrite !dom_insert_L, Hdom.
Qed.

Lemma Register_same_keys_witness :
  dom (loaderFuncs (Register Empty (FuncVal (constString "main.first")) None).1) =
    dom (gqlTypes (Register Empty (FuncVal (constString "main.first")) None).1).
Proof. apply (Register_same_keys Empty). reflexivity. Defined.

(** X2.  Converters for two different types can be registered in either
    order: the loader is the same after both calls, and each call has the
    same result in both orders. *)
Theorem Register_commutes e f1 gqlType1 out1 f2 gqlType2 out2 :
  loaderSignature f1 out1 → loaderSignature f2 out2 → out1 ≠ out2 →
  (Register (Register e (FuncVal f1) gqlType1).1 (FuncVal f2) gqlType2).1 =
    (Register (Register e (FuncVal f2) gqlType2).1 (FuncVal f1) gqlType1).1 ∧
  (Register (Register e (FuncVal f1) gqlType1).1 (FuncVal f2) gqlType2).2 =
    (Register e (FuncVal f2) gqlType2).2 ∧
  (Register (Register e (FuncVal f2) gqlType2).1 (FuncVal f1) gqlType1).2 =
    (Register e (FuncVal f1) gqlType1).2.
Proof.
  intros H1 H2 Hne.
  rewrite (Register_loaderSignature e _ _ gqlType1 H1).
  rewrite (Register_loaderSignature e _ _ gqlType2 H2).
  destruct (loaderFuncs e !! out1) as [w1|] eqn:E1;
    destruct (loaderFuncs e !! out2) as [w2|] eqn:E2; simpl;
    rewrite ?(Register_loaderSignature _ _ _ _ H1),
            ?(Register_loaderSignature _ _ _ _ H2); simpl;
    rewrite ?lookup_insert_ne by done; rewrite ?E1, ?E2; simpl;
    try done.
  repeat split. f_equal; by apply insert_insert_ne.
Qed.

Lemma Register_commutes_witness :
  (Register (Register Empty (FuncVal (constString "main.s")) None).1
     (FuncVal (constInt "main.i")) None).1 =
    (Register (Register Empty (FuncVal (constInt "main.i")) None).1
       (FuncVal (constString "main.s")) None).1.
Proof.
  refine (proj1 (Register_commutes Empty (constString "main.s") None TString
                   (constInt "main.i") None TInt _ _ _)).
  - split; reflexivity.
  - split; reflexivity.
  - discriminate.
Defined.

(** What [Register] builds returns a result or an error, never both, and
    neither of them only after a panic with nil. *)
Lemma wrapped_result fname callable i :
  (∃ x, wrapped fname callable i = (Some x, None)) ∨
  (∃ err, wrapped fname callable i = (None, Some err)) ∨
  (wrapped fname callable i = (None, None) ∧
   Call callable i = Panics (OValue VNil)).
Proof.
  unfold wrapped. destruct (Call callable i) as [v [err|]|pv]; eauto.
  destruct pv as [[]| | | | | | |]; simpl; eauto.
Qed.

(** X3.  A nil argument never reaches a registered converter: whatever the
    func does, the closure stored for it answers nil with the error of the
    panic of [reflect.Value.Call] on the zero Value. *)
Theorem wrapped_nil_argument fname f :
  length (Ins f) = 1 →
  wrapped fname (FuncVal f) VNil =
    (None, Some (Errorf "%s panicked: %s"
       [OString fname; OString "reflect: Call using zero Value argument"])).
Proof.
  intros Hin. unfold wrapped, Call.
  by destruct (Ins f) as [|targ [|? ?]].
Qed.

Lemma wrapped_nil_argument_witness :
  wrapped "main.first" (FuncVal (constString "main.first")) VNil =
    (None, Some (Errorf "%s panicked: %s"
       [OString "main.first";
        OString "reflect: Call using zero Value argument"])).
Proof. apply wrapped_nil_argument. reflexivity. Defined.

(** X4.  [Register] checks the number of inputs of a func, not their type:
    a converter with a typed parameter is registered, and the closure
    stored for it answers an argument of another dynamic type with the
    error of the panic of [reflect.Value.Call], without running the func. *)
Theorem wrapped_not_assignable e f gqlType out0 targ i xt :
  Ins f = [targ] → Outs f = [out0; TError] → loaderFuncs e !! out0 = None →
  TypeOf_value i = Some xt → AssignableTo xt targ = false →
  (Register e (FuncVal f) gqlType).2 = Return None ∧
  ∃ w, loaderFuncs (Register e (FuncVal f) gqlType).1 !! out0 = Some w ∧
       w i = (None, Some (Errorf "%s panicked: %s"
                [OString (FuncName f);
                 OSprintf "reflect: Call using %s as type %s"
                   [OType xt; OType targ]])).
Proof.
  intros Hin Hout Hfree Hxt Hassign.
  assert (Hsig : loaderSignature f out0) by (split; [by rewrite Hin|done]).
  rewrite (Register_loaderSignature _ _ _ _ Hsig), Hfree. simpl.
  split; [done|]. eexists. split; [apply lookup_insert_eq|].
  unfold wrapped, Call. by rewrite Hin, Hxt, Hassign.
Qed.

Lemma wrapped_not_assignable_witness :
  (Register Empty (FuncVal typedString) None).2 = Return None ∧
  ∃ w, loaderFuncs (Register Empty (FuncVal typedString) None).1 !! TString
         = Some w ∧
       w (VInt 3) = (None, Some (Errorf "%s panicked: %s"
                [OString "main.Typed";
                 OSprintf "reflect: Call using %s as type %s"
                   [OType TInt; OType TString]])).
Proof.
  apply (wrapped_not_assignable Empty typedString None TString TString
           (VInt 3) TInt); reflexivity.
Defined.

(** [Register] keeps [registered]. *)
Lemma registered_Empty : registered Empty.
Proof. intros t w. unfold Empty; simpl. by rewrite lookup_empty. Qed.

Lemma Register_keeps_registered e f gqlType :
  registered e → registered (Register e f gqlType).1.
Proof.
  intros Hreg. destruct (Register e f gqlType) as [e' r] eqn:HR; simpl.
  destruct r as [[err|]|pv];
    [by rewrite (Register_not_ok_same _ _ _ _ _ HR)|
    |by rewrite (Register_not_ok_same _ _ _ _ _ HR)].
  destruct (Register_ok_inv _ _ _ _ HR) as (c & out0 & _ & _ & _ & ->).
  intros t w. simpl. rewrite lookup_insert.
  case_decide; [intros [= <-]; eauto | apply Hreg].
Qed.

(** The loop of [New]: what it returns on success. *)
Lemma registerAll_ok_inv ls : ∀ ec ec',
  registerAll ec ls = Return (Some ec', None) →
  (∀ t w, loaderFuncs ec !! t = Some w → loaderFuncs ec' !! t = Some w) ∧
  (registered ec → registered ec') ∧
  (dom (loaderFuncs ec) = dom (gqlTypes ec) →
   dom (loaderFuncs ec') = dom (gqlTypes ec')) ∧
  (∀ f gqlType, (f, gqlType) ∈ ls →
     ∃ callable out0,
       f = FuncVal callable ∧ loaderSignature callable out0 ∧
       loaderFuncs ec' !! out0 = Some (wrapped (FuncName callable) f)).
Proof.
  induction ls as [|[f g] ls IH]; intros ec ec'; simpl.
  { intros [= <-]. repeat split; try done. intros ? ? H. inversion H. }
  destruct (Register ec f g) as [ec1 r] eqn:HR.
  destruct r as [[err|]|pv]; try discriminate.
  intros Hall. destruct (IH _ _ Hall) as (Hmono & Hregd & Hdom & Hin).
  assert (E1 : ec1 = (Register ec f g).1) by by rewrite HR.
  repeat split.
  - intros t w Hw. apply Hmono. rewrite E1. by apply Register_keeps_entries.
  - intros H. apply Hregd. rewrite E1. by apply Register_keeps_registered.
  - intros H. apply Hdom. rewrite E1.
    destruct (Register_ok_inv _ _ _ _ HR) as (c & out0 & _ & _ & _ & E).
    rewrite HR. simpl. rewrite E. simpl. by rewrite !dom_insert_L, H.
  - intros f' g' Hel. apply elem_of_cons in Hel as [[= -> ->]|Hel]; [|eauto].
    destruct (Register_ok_inv _ _ _ _ HR) as (c & out0 & -> & Hsig & _ & E).
    exists c, out0. repeat split; try apply Hsig.
    apply Hmono. rewrite E. simpl. apply lookup_insert_eq.
Qed.

(** X5.  When the loop of [New] over a list of loader funcs succeeds, the
    loader it returns has every func of the list registered, as the closure
    [Register] builds for it, under the first output type of the func, and
    it has kept every loader func it started from.  When the loop fails it
    returns the error and no loader. *)
Theorem registerAll_registers ls ec :
  (∀ ec', registerAll ec ls = Return (Some ec', None) →
     (∀ t w, loaderFuncs ec !! t = Some w → loaderFuncs ec' !! t = Some w) ∧
     (∀ f gqlType, (f, gqlType) ∈ ls →
        ∃ callable out0,
          f = FuncVal callable ∧ loaderSignature callable out0 ∧
          loaderFuncs ec' !! out0 = Some (wrapped (FuncName callable) f))) ∧
  (∀ l err, registerAll ec ls = Return (l, Some err) → l = None) ∧
  (∀ l, registerAll ec ls = Return (l, None) → is_Some l).
Proof.
  split; [|split].
  - intros ec' H. destruct (registerAll_ok_inv _ _ _ H) as (? & _ & _ & ?).
    by split.
  - revert ec. induction ls as [|[f g] ls IH]; intros ec l err; simpl.
    { discriminate. }
    destruct (Register ec f g) as [ec1 [[e1|]|pv]]; try discriminate.
    + by intros [= <- _].
    + apply IH.
  - revert ec. induction ls as [|[f g] ls IH]; intros ec l; simpl.
    { intros [= <-]. eauto. }
    destruct (Register ec f g) as [ec1 [[e1|]|pv]]; try discriminate.
    apply IH.
Qed.

Lemma registerAll_registers_witness :
  ∃ callable out0,
    FuncVal (funcOf "LoadInt" TInt VInt LoadInt) = FuncVal callable ∧
    loaderSignature callable out0 ∧
    loaderFuncs defaultLoader !! out0 =
      Some (wrapped (FuncName callable)
              (FuncVal (funcOf "LoadInt" TInt VInt LoadInt))).
Proof.
  refine (proj2 (proj1 (registerAll_registers DefaultLoaders Empty)
                   defaultLoader _) _ (Some graphql.Int) _).
  - reflexivity.
  - apply list_elem_of_In. simpl. auto.
Defined.

(** The loader of the package is one that [Register] built. *)
Lemma defaultLoader_registered : registered defaultLoader.
Proof.
  assert (H : registerAll Empty DefaultLoaders = Return (Some defaultLoader, None))
    by reflexivity.
  destruct (registerAll_ok_inv _ _ _ H) as (_ & Hr & _).
  apply Hr, registered_Empty.
Qed.

(** X6.  After [init] the loader of the package has a converter for the
    types bool, string, int and float64 and for no other type, and each of
    them hands a value of its type on unchanged and answers every other
    value, nil too, with an error and the zero Value. *)
Theorem defaultLoader_converters :
  init = Return (Some defaultLoader) ∧
  dom (loaderFuncs defaultLoader) = {[TBool; TString; TInt; TFloat64]} ∧
  ∀ t w i,
    loaderFuncs defaultLoader !! t = Some w →
    (TypeOf_value i = Some t → w i = (Some i, None)) ∧
    (TypeOf_value i ≠ Some t → ∃ err, w i = (None, Some err)).
Proof.
  split; [reflexivity|]. split.
  { vm_compute. reflexivity. }
  intros t w i Hw.
  assert (Hdom : t ∈ dom (loaderFuncs defaultLoader))
    by (apply elem_of_dom; eauto).
  assert (E : dom (loaderFuncs defaultLoader) =
              ({[TBool; TString; TInt; TFloat64]} : gset rtype))
    by (vm_compute; reflexivity).
  rewrite E, !elem_of_union, !elem_of_singleton in Hdom.
  destruct Hdom as [[[->| ->]| ->]| ->];
    (assert (Hw' := Hw); vm_compute in Hw'; injection Hw' as Hw'; subst w);
    split; intros Hi; destruct i; try done; eexists; reflexivity.
Qed.

Lemma defaultLoader_converters_witness :
  ∃ w, loaderFuncs defaultLoader !! TString = Some w ∧
       w (VString "Joe") = (Some (VString "Joe"), None).
Proof.
  eexists. split; [reflexivity|].
  apply (proj2 (proj2 defaultLoader_converters) TString _ (VString "Joe"));
    reflexivity.
Defined.

(** ** [LoadArgs]: the destination *)

Lemma sameShape_refl sv : sameShape sv sv.
Proof. destruct sv as [[]|]; simpl; eauto. Qed.

Lemma FieldSet_inv sv field i toSet sv' :
  FieldSet sv field i toSet = Return sv' →
  ∃ name decl fs x,
    sv = Some (VStruct name decl fs) ∧ toSet = Some x ∧
    PkgPath field = "" ∧ sv' = Some (VStruct name decl (<[i:=x]> fs)).
Proof.
  unfold FieldSet. destruct sv as [[| | | | |name decl fs|]|]; try done.
  destruct (decide (PkgPath field = "")); [|done].
  destruct toSet as [x|]; [|done]. intros [= <-]. by exists name, decl, fs, x.
Qed.

(** The loop leaves a struct a struct of the same type with as many
    fields, and anything else as it is. *)
Lemma loadFields_shape e p fields : ∀ i sv,
  sameShape sv (loadFields e p fields i sv).1.
Proof.
  induction fields as [|field fields IH]; intros i sv; simpl.
  { apply sameShape_refl. }
  destruct (Lookup (Tag field) argTag) as [argKey|]; [|apply IH].
  destruct (graphql.Args p !! argKey) as [interfaceVal|].
  - destruct (loaderFuncs e !! Type_ field) as [loaderFunc|];
      [|apply sameShape_refl].
    destruct (loaderFunc interfaceVal) as [toSet [err|]];
      [apply sameShape_refl|].
    destruct (FieldSet sv field i toSet) as [sv1|pv] eqn:Hset;
      [|apply sameShape_refl].
    destruct (FieldSet_inv _ _ _ _ _ Hset) as (n & d & fs & x & -> & _ & _ & ->).
    specialize (IH (S i) (Some (VStruct n d (<[i:=x]> fs)))). simpl in *.
    destruct IH as (fs' & -> & Hlen). exists fs'. split; [done|].
    by rewrite Hlen, length_insert.
  - destruct (Lookup (Tag field) requiredTag) as [requiredVal|]; [|apply IH].
    destruct (strconv.ParseBool requiredVal) as [[|] [err|]];
      try apply sameShape_refl; apply IH.
Qed.

(** What [LoadArgs] leaves of its destination. *)
Lemma LoadArgs_fst e p c :
  (LoadArgs e p c).1 =
    match c with
    | Data (VPtr (StructOf name decl) target) =>
        Data (VPtr (StructOf name decl) (loadFields e p decl 0 target).1)
    | _ => c
    end.
Proof.
  destruct c as [[| | | | | |elem target]|f]; try reflexivity.
  destruct elem; try reflexivity. by rewrite LoadArgs_struct_ptr.
Qed.

(** X7.  [LoadArgs] changes nothing of its destination but the values of
    fields: whatever it returns, the destination has the type it had, and a
    struct it points to is a struct of the same type with as many fields. *)
Theorem LoadArgs_keeps_shape e p c :
  TypeOf (LoadArgs e p c).1 = TypeOf c ∧
  ∀ name decl fs,
    targetOf c = Some (VStruct name decl fs) →
    ∃ fs', targetOf (LoadArgs e p c).1 = Some (VStruct name decl fs') ∧
           length fs' = length fs.
Proof.
  rewrite LoadArgs_fst.
  destruct c as [[| | | | | |elem target]|f]; try by (split; [done|eauto]).
  destruct elem; (split; [done|]); eauto.
  simpl. intros n d fs ->.
  apply (loadFields_shape e p fields 0 (Some (VStruct n d fs))).
Qed.

Lemma LoadArgs_keeps_shape_witness :
  ∃ fs', targetOf (LoadArgs defaultLoader (params [("name", VString "Joe")])
                     newHelloArgs).1
           = Some (VStruct "helloArgs" helloArgs fs') ∧
         length fs' = 2.
Proof.
  apply (proj2 (LoadArgs_keeps_shape defaultLoader
                  (params [("name", VString "Joe")]) newHelloArgs)
           "helloArgs" helloArgs [VString ""; VString ""]).
  reflexivity.
Defined.

(** X8.  [LoadArgs] writes a field only for an argument that is in
    [p.Args]: when no field has its argument there, and so on the empty
    map, the destination is after the call what it was before, whether the
    call returns nil or an error. *)
Theorem LoadArgs_no_argument e p name decl target :
  (forallb (notSet p) decl = true →
   (LoadArgs e p (Data (VPtr (StructOf name decl) target))).1 =
     Data (VPtr (StructOf name decl) target)) ∧
  (graphql.Args p = ∅ →
   (LoadArgs e p (Data (VPtr (StructOf name decl) target))).1 =
     Data (VPtr (StructOf name decl) target)).
Proof.
  assert (H : forallb (notSet p) decl = true →
    (LoadArgs e p (Data (VPtr (StructOf name decl) target))).1 =
      Data (VPtr (StructOf name decl) target)).
  { intros Hn. rewrite LoadArgs_fst. by rewrite loadFields_notSet. }
  split; [exact H|]. intros Hempty. apply H.
  apply forallb_forall. intros field _. unfold notSet.
  destruct (Lookup (Tag field) argTag); [|done].
  apply bool_decide_eq_true. by rewrite Hempty, lookup_empty.
Qed.

Lemma LoadArgs_no_argument_witness :
  (LoadArgs defaultLoader (params []) newHelloArgs).1 = newHelloArgs.
Proof.
  apply (proj2 (LoadArgs_no_argument defaultLoader (params []) "helloArgs"
                  helloArgs (helloValue "" ""))).
  reflexivity.
Defined.

(** The loop reads [p.Args] under the argument names of its fields only. *)
Lemma loadFields_ext e p p' fields : ∀ i sv,
  Forall (sameArgs p p') fields →
  loadFields e p fields i sv = loadFields e p' fields i sv.
Proof.
  induction fields as [|field fields IH]; intros i sv Hall; simpl; [done|].
  inversion Hall as [|? ? Hf Hrest]; subst. unfold sameArgs in Hf.
  destruct (Lookup (Tag field) argTag) as [argKey|]; [|by apply IH].
  rewrite <- (Hf argKey eq_refl).
  destruct (graphql.Args p !! argKey) as [interfaceVal|].
  - destruct (loaderFuncs e !! Type_ field) as [loaderFunc|]; [|done].
    destruct (loaderFunc interfaceVal) as [toSet [err|]]; [done|].
    destruct (FieldSet sv field i toSet); [by apply IH|done].
  - destruct (Lookup (Tag field) requiredTag) as [requiredVal|]; [|by apply IH].
    destruct (strconv.ParseBool requiredVal) as [[|] [err|]]; try done;
      by apply IH.
Qed.

(** X9.  [LoadArgs] ignores the entries of [p.Args] that are no argument of
    a field: two maps that agree under the argument name of every
    [arg]-tagged field give the same result and the same destination. *)
Theorem LoadArgs_ignores_other_keys e p p' name decl target :
  Forall (sameArgs p p') decl →
  LoadArgs e p (Data (VPtr (StructOf name decl) target)) =
    LoadArgs e p' (Data (VPtr (StructOf name decl) target)).
Proof.
  intros Hall. rewrite !LoadArgs_struct_ptr.
  by rewrite (loadFields_ext e p p' decl 0 target Hall).
Qed.

Lemma LoadArgs_ignores_other_keys_witness :
  LoadArgs defaultLoader
    (params [("name", VString "Joe"); ("age", VInt 30)]) newHelloArgs =
  LoadArgs defaultLoader (params [("name", VString "Joe")]) newHelloArgs.
Proof.
  apply LoadArgs_ignores_other_keys.
  repeat constructor; intros k [= <-]; reflexivity.
Defined.

(** One round of the loop. *)
Lemma loadFields_cons e p field rest i sv :
  loadFields e p (field :: rest) i sv =
    match Lookup (Tag field) argTag with
    | None => loadFields e p rest (S i) sv
    | Some argKey =>
        match graphql.Args p !! argKey with
        | None =>
            match Lookup (Tag field) requiredTag with
            | None => loadFields e p rest (S i) sv
            | Some requiredVal =>
                match strconv.ParseBool requiredVal with
                | (_, Some err) =>
                    (sv, Return (Some (Errorf
                       "%s is not a valid 'required' tag value"
                       [OString requiredVal])))
                | (required, None) =>
                    if required then
                      (sv, Return (Some (Errorf "%s is required"
                                           [OString argKey])))
                    else loadFields e p rest (S i) sv
                end
            end
        | Some interfaceVal =>
            match loaderFuncs e !! Type_ field with
            | None =>
                (sv, Return (Some (Errorf
                   "no loader function found for type %v"
                   [OType (Type_ field)])))
            | Some loaderFunc =>
                match loaderFunc interfaceVal with
                | (_, Some err) =>
                    (sv, Return (Some (Errorf "cannot populate %s: %v"
                       [OString (Name field); OError err])))
                | (toSet, None) =>
                    match FieldSet sv field i toSet with
                    | Panic pv => (sv, Panic pv)
                    | Return sv' => loadFields e p rest (S i) sv'
                    end
                end
            end
        end
    end.
Proof. reflexivity. Qed.

(** The loop ended without error: every field that has its argument in
    [p.Args] holds what its loader func made of the argument. *)
Lemma loadFields_ok_values e p fields : ∀ (i : nat) name decl fs sv',
  loadFields e p fields i (Some (VStruct name decl fs)) = (sv', Return None) →
  ∀ (j : nat) field argKey interfaceVal,
    fields !! j = Some field →
    Lookup (Tag field) argTag = Some argKey →
    graphql.Args p !! argKey = Some interfaceVal →
    (i + j < length fs)%nat →
    ∃ loaderFunc x,
      loaderFuncs e !! Type_ field = Some loaderFunc ∧
      loaderFunc interfaceVal = (Some x, None) ∧
      structField sv' (i + j) = Some x.
Proof.
  induction fields as [|field fields IH]; intros i name decl fs sv' Hrun j f
    argKey interfaceVal Hj Harg Hp Hlen.
  { by destruct j. }
  destruct j as [|j]; simpl in Hj.
  - injection Hj as ->.
    rewrite (loadFields_present _ _ _ _ _ _ _ _ Harg Hp) in Hrun.
    destruct (loaderFuncs e !! Type_ f) as [loaderFunc|]; [|done].
    destruct (loaderFunc interfaceVal) as [toSet [err|]] eqn:Hconv; [done|].
    destruct (FieldSet _ f i toSet) as [sv1|pv] eqn:Hset; [|done].
    destruct (FieldSet_inv _ _ _ _ _ Hset) as (n & d & fs0 & x & [= <- <- <-] & -> & _ & ->).
    exists loaderFunc, x. repeat split; try done.
    rewrite Nat.add_0_r.
    replace sv' with (loadFields e p fields (S i)
                        (Some (VStruct name decl (<[i:=x]> fs)))).1
      by by rewrite Hrun.
    rewrite loadFields_frame.
    + simpl. apply list_lookup_insert_eq. lia.
    + intros ? Hle. lia.
  - replace (i + S j)%nat with (S i + j)%nat in * by lia.
    rewrite loadFields_cons in Hrun.
    destruct (Lookup (Tag field) argTag) as [argKey0|];
      [|by eapply IH].
    destruct (graphql.Args p !! argKey0) as [interfaceVal0|].
    + destruct (loaderFuncs e !! Type_ field) as [loaderFunc|]; [|done].
      destruct (loaderFunc interfaceVal0) as [toSet [err|]]; [done|].
      destruct (FieldSet _ field i toSet) as [sv1|pv] eqn:Hset; [|done].
      destruct (FieldSet_inv _ _ _ _ _ Hset) as (n & d & fs0 & x & [= <- <- <-] & -> & _ & ->).
      eapply IH; eauto. by rewrite length_insert.
    + destruct (Lookup (Tag field) requiredTag) as [requiredVal|];
        [|by eapply IH].
      destruct (strconv.ParseBool requiredVal) as [[|] [err|]]; try done.
      by eapply IH.
Qed.

(** X10.  When [LoadArgs] returns nil, every field of the struct that has
    its argument in [p.Args] holds the value that the loader func
    registered for the type of the field made of that argument. *)
Theorem LoadArgs_ok_populates e p name decl name' decl' fs c' (k : nat) field
    argKey interfaceVal :
  LoadArgs e p (Data (VPtr (StructOf name decl)
                        (Some (VStruct name' decl' fs)))) = (c', Return None) →
  decl !! k = Some field →
  Lookup (Tag field) argTag = Some argKey →
  graphql.Args p !! argKey = Some interfaceVal →
  (k < length fs)%nat →
  ∃ loaderFunc x,
    loaderFuncs e !! Type_ field = Some loaderFunc ∧
    loaderFunc interfaceVal = (Some x, None) ∧
    fieldValue c' k = Some x.
Proof.
  rewrite LoadArgs_struct_ptr. intros [= <- Hr] Hk Harg Hp Hlen.
  rewrite fieldValue_structField.
  destruct (loadFields e p decl 0 (Some (VStruct name' decl' fs)))
    as [sv' r] eqn:Hrun. simpl in *. subst r.
  apply (loadFields_ok_values e p decl 0 name' decl' fs sv' Hrun k field
           argKey interfaceVal Hk Harg Hp Hlen).
Qed.

Lemma LoadArgs_ok_populates_witness :
  ∃ loaderFunc x,
    loaderFuncs defaultLoader !! TString = Some loaderFunc ∧
    loaderFunc (VString "Hi") = (Some x, None) ∧
    fieldValue (Data (VPtr (StructOf "helloArgs" helloArgs)
                        (helloValue "Joe" "Hi"))) 1 = Some x.
Proof.
  apply (LoadArgs_ok_populates defaultLoader
           (params [("name", VString "Joe"); ("greeting", VString "Hi")])
           "helloArgs" helloArgs "helloArgs" helloArgs
           [VString ""; VString ""] _ 1 helloGreeting "greeting"
           (VString "Hi")); try reflexivity.
  simpl. lia.
Defined.

(** ** [LoadArgs]: errors and panics *)

(** X11.  [LoadArgs] wants a pointer to a struct: a destination of any
    other type than a pointer gets the "is not a pointer" error, a struct
    too, which [SafeArgsConfig] accepts; a pointer to anything but a struct
    gets the "is not a pointer to a struct" error.  The destination is left
    as it is. *)
Theorem LoadArgs_wants_struct_pointer e p c t :
  TypeOf c = Some t →
  (Kind t ≠ reflect.Ptr →
   LoadArgs e p c =
     (c, Return (Some (Errorf "%v is not a pointer" [operandOf c])))) ∧
  (∀ elem, t = PtrTo elem → Kind elem ≠ reflect.Struct →
   LoadArgs e p c =
     (c, Return (Some (Errorf "%v is not a pointer to a struct"
                         [operandOf c])))).
Proof.
  intros Ht. unfold LoadArgs. rewrite Ht. simpl. split.
  - intros Hk. by destruct (decide (Kind t ≠ reflect.Ptr)).
  - intros elem -> Hk. simpl.
    by destruct (decide (Kind elem ≠ reflect.Struct)).
Qed.

Lemma LoadArgs_wants_struct_pointer_witness :
  LoadArgs defaultLoader (params [("name", VString "Joe")])
    (Data (VStruct "helloArgs" helloArgs [VString ""; VString ""])) =
  (Data (VStruct "helloArgs" helloArgs [VString ""; VString ""]),
   Return (Some (Errorf "%v is not a pointer"
     [OValue (VStruct "helloArgs" helloArgs [VString ""; VString ""])]))).
Proof.
  apply (proj1 (LoadArgs_wants_struct_pointer defaultLoader
                  (params [("name", VString "Joe")])
                  (Data (VStruct "helloArgs" helloArgs [VString ""; VString ""]))
                  (StructOf "helloArgs" helloArgs) eq_refl)).
  discriminate.
Defined.

(** X12.  When the loop of [LoadArgs] reaches a field whose argument is in
    [p.Args] and no loader func is registered for the type of the field,
    [LoadArgs] returns the "no loader function found" error for that type,
    whatever the argument is, and the struct is left as the fields before
    left it. *)
Theorem LoadArgs_no_loader_func e p name pre field post target target' argKey
    interfaceVal :
  Lookup (Tag field) argTag = Some argKey →
  graphql.Args p !! argKey = Some interfaceVal →
  loadFields e p pre 0 target = (target', Return None) →
  loaderFuncs e !! Type_ field = None →
  LoadArgs e p (Data (VPtr (StructOf name (pre ++ field :: post)) target)) =
    (Data (VPtr (StructOf name (pre ++ field :: post)) target'),
     Return (Some (Errorf "no loader function found for type %v"
                     [OType (Type_ field)]))).
Proof.
  intros Harg Hp Hpre Hnone.
  rewrite LoadArgs_struct_ptr, loadFields_app, Hpre. cbv beta iota.
  by rewrite (loadFields_present _ _ _ _ _ _ _ _ Harg Hp), Hnone.
Qed.

Lemma LoadArgs_no_loader_func_witness :
  LoadArgs Empty (params [("name", VString "Joe")]) newHelloArgs =
    (newHelloArgs,
     Return (Some (Errorf "no loader function found for type %v"
                     [OType TString]))).
Proof.
  apply (LoadArgs_no_loader_func Empty (params [("name", VString "Joe")])
           "helloArgs" [] helloName [helloGreeting] (helloValue "" "")
           (helloValue "" "") "name" (VString "Joe")); reflexivity.
Defined.

(** X13.  An error that a registered converter returns reaches the caller
    of [LoadArgs] inside the "cannot populate" error of the field, and the
    value the converter returned with it is dropped: the field is not
    written. *)
Theorem LoadArgs_converter_error e p name pre field post target target' argKey
    interfaceVal f returnval err :
  loaderFuncs e !! Type_ field = Some (wrapped (FuncName f) (FuncVal f)) →
  Lookup (Tag field) argTag = Some argKey →
  graphql.Args p !! argKey = Some interfaceVal →
  Call (FuncVal f) interfaceVal = Returns returnval (Some err) →
  loadFields e p pre 0 target = (target', Return None) →
  LoadArgs e p (Data (VPtr (StructOf name (pre ++ field :: post)) target)) =
    (Data (VPtr (StructOf name (pre ++ field :: post)) target'),
     Return (Some (Errorf "cannot populate %s: %v"
       [OString (Name field); OError (Errorf "%v" [OError err])]))).
Proof.
  intros Hreg Harg Hp Hcall Hpre.
  rewrite LoadArgs_struct_ptr, loadFields_app, Hpre. cbv beta iota.
  rewrite (loadFields_present _ _ _ _ _ _ _ _ Harg Hp), Hreg.
  unfold wrapped. by rewrite Hcall.
Qed.

Lemma LoadArgs_converter_error_witness :
  LoadArgs failLoader (params [("name", VString "Joe")]) newHelloArgs =
    (newHelloArgs,
     Return (Some (Errorf "cannot populate %s: %v"
       [OString "Name"; OError (Errorf "%v" [OError (Errorf "no" [])])]))).
Proof.
  apply (LoadArgs_converter_error failLoader
           (params [("name", VString "Joe")]) "helloArgs" [] helloName
           [helloGreeting] (helloValue "" "") (helloValue "" "") "name"
           (VString "Joe") failing (VString "") (Errorf "no" []));
    reflexivity.
Defined.

(** With loader funcs that [Register] built for converters that do not
    panic with nil, the loop over a struct panics on no settable field. *)
Lemma loadFields_no_panic e p fields :
  registered e →
  (∀ t fname callable i,
     loaderFuncs e !! t = Some (wrapped fname callable) →
     Call callable i ≠ Panics (OValue VNil)) →
  Forall settable fields →
  ∀ i name decl fs,
    ∃ r, (loadFields e p fields i (Some (VStruct name decl fs))).2 = Return r.
Proof.
  intros Hreg Hnil Hall. induction Hall as [|field fields Hf _ IH];
    intros i name decl fs.
  { by eexists. }
  rewrite loadFields_cons.
  destruct (Lookup (Tag field) argTag) as [argKey|] eqn:Harg; [|apply IH].
  destruct Hf as [Hf|Hf]; [congruence|].
  destruct (graphql.Args p !! argKey) as [interfaceVal|].
  - destruct (loaderFuncs e !! Type_ field) as [loaderFunc|] eqn:Hl;
      [|by eexists].
    destruct (Hreg _ _ Hl) as (fname & callable & ->).
    destruct (wrapped_result fname callable interfaceVal)
      as [[x ->]|[[err ->]|[_ Hcall]]]; [|by eexists|].
    + unfold FieldSet. destruct (decide (PkgPath field = "")); [|done].
      apply IH.
    + by destruct (Hnil _ _ _ interfaceVal Hl).
  - destruct (Lookup (Tag field) requiredTag) as [requiredVal|]; [|apply IH].
    destruct (strconv.ParseBool requiredVal) as [[|] [err|]];
      try (by eexists); apply IH.
Qed.

(** X14.  With a loader whose funcs were all stored by [Register], for
    converters that never panic with a nil value, [LoadArgs] on a pointer
    to a struct whose [arg]-tagged fields are all exported does not panic,
    whatever else the converters do and whatever is in [p.Args]: it
    returns nil or an error. *)
Theorem LoadArgs_no_panic e p name decl name' decl' fs :
  registered e →
  (∀ t fname callable i,
     loaderFuncs e !! t = Some (wrapped fname callable) →
     Call callable i ≠ Panics (OValue VNil)) →
  Forall settable decl →
  ∃ r, (LoadArgs e p (Data (VPtr (StructOf name decl)
                              (Some (VStruct name' decl' fs))))).2 = Return r.
Proof.
  intros Hreg Hnil Hall. rewrite LoadArgs_struct_ptr. simpl.
  by apply loadFields_no_panic.
Qed.

(** Every call of [panicking] panics, with a value that is not nil. *)
Lemma panicking_Call i :
  ∃ pv, Call (FuncVal panicking) i = Panics pv ∧ notNil pv = true.
Proof.
  unfold Call. simpl. destruct (TypeOf_value i) as [xt|]; [|by eexists].
  destruct (AssignableTo xt TInterface); by eexists.
Qed.

(** The one loader func of [panicLoader]. *)
Lemma panicLoader_inv t w :
  loaderFuncs panicLoader !! t = Some w →
  t = TString ∧ w = wrapped "main.LoadPanic" (FuncVal panicking).
Proof.
  change (loaderFuncs panicLoader)
    with (<[TString := wrapped "main.LoadPanic" (FuncVal panicking)]>
            (∅ : gmap rtype LoaderFunc)).
  rewrite lookup_insert. case_decide as Ht; [|by rewrite lookup_empty].
  by intros [= <-].
Qed.

Lemma LoadArgs_no_panic_witness :
  ∃ r, (LoadArgs panicLoader (params [("name", VNil)]) newHelloArgs).2
         = Return r.
Proof.
  apply LoadArgs_no_panic.
  - apply (Register_keeps_registered Empty), registered_Empty.
  - intros t fname callable i Hl Hcall.
    destruct (panicLoader_inv _ _ Hl) as [_ Hw].
    pose proof (wrapped_recovers fname callable i _ Hcall) as H.
    rewrite Hw in H.
    destruct (panicking_Call i) as (pv & Hc & Hn).
    rewrite (wrapped_recovers _ _ _ _ Hc), Hn in H. discriminate H.
  - repeat constructor; right; reflexivity.
Defined.

(** X15.  [LoadArgs] panics on an unexported field: when the loop reaches
    an [arg]-tagged field of a package-qualified name whose argument is in
    [p.Args] and converts, [Set] on the field panics and [LoadArgs] with it;
    the fields before keep what was written to them. *)
Theorem LoadArgs_unexported_field e p name pre field post target target' argKey
    interfaceVal loaderFunc toSet name' decl' fs :
  Lookup (Tag field) argTag = Some argKey →
  graphql.Args p !! argKey = Some interfaceVal →
  loaderFuncs e !! Type_ field = Some loaderFunc →
  loaderFunc interfaceVal = (toSet, None) →
  PkgPath field ≠ "" →
  loadFields e p pre 0 target = (target', Return None) →
  target' = Some (VStruct name' decl' fs) →
  LoadArgs e p (Data (VPtr (StructOf name (pre ++ field :: post)) target)) =
    (Data (VPtr (StructOf name (pre ++ field :: post)) target'),
     Panic (OString
       "reflect: reflect.Value.Set using value obtained using unexported field")).
Proof.
  intros Harg Hp Hl Hconv Hpkg Hpre ->.
  rewrite LoadArgs_struct_ptr, loadFields_app, Hpre. cbv beta iota.
  rewrite (loadFields_present _ _ _ _ _ _ _ _ Harg Hp), Hl, Hconv.
  unfold FieldSet. by destruct (decide (PkgPath field = "")).
Qed.

Lemma LoadArgs_unexported_field_witness :
  LoadArgs defaultLoader (params [("name", VString "Joe")]) newHidden =
    (newHidden,
     Panic (OString
       "reflect: reflect.Value.Set using value obtained using unexported field")).
Proof.
  apply (LoadArgs_unexported_field defaultLoader
           (params [("name", VString "Joe")]) "hidden" [] hiddenName []
           (Some (VStruct "hidden" [hiddenName] [VString ""]))
           (Some (VStruct "hidden" [hiddenName] [VString ""]))
           "name" (VString "Joe")
           (wrapped "github.com/btubbs/graphql-go-helpers.LoadString"
              (FuncVal (funcOf "LoadString" TString VString LoadString)))
           (Some (VString "Joe")) "hidden" [hiddenName] [VString ""]);
    try reflexivity.
  discriminate.
Defined.

(** X16.  A nil pointer to a struct goes unnoticed as long as nothing is
    written: [LoadArgs] returns what the loop returns when the loop passes
    every field over, nil if there is no error.  It panics when the loop
    reaches a field whose argument is in [p.Args] and converts. *)
Theorem LoadArgs_nil_pointer e p name decl :
  (forallb (skipped p) decl = true →
   LoadArgs e p (Data (VPtr (StructOf name decl) None)) =
     (Data (VPtr (StructOf name decl) None), Return None)) ∧
  (∀ (pre : list StructField) field post argKey interfaceVal loaderFunc toSet,
     decl = (pre ++ field :: post)%list →
     forallb (skipped p) pre = true →
     Lookup (Tag field) argTag = Some argKey →
     graphql.Args p !! argKey = Some interfaceVal →
     loaderFuncs e !! Type_ field = Some loaderFunc →
     loaderFunc interfaceVal = (toSet, None) →
     ∃ pv, LoadArgs e p (Data (VPtr (StructOf name decl) None)) =
             (Data (VPtr (StructOf name decl) None), Panic pv)).
Proof.
  split.
  - intros Hskip. rewrite LoadArgs_struct_ptr.
    by rewrite (loadFields_skipped _ _ _ _ _ Hskip).
  - intros pre field post argKey interfaceVal loaderFunc toSet -> Hskip Harg
      Hp Hl Hconv.
    rewrite LoadArgs_struct_ptr, loadFields_app.
    rewrite (loadFields_skipped _ _ _ _ _ Hskip). cbv beta iota.
    rewrite (loadFields_present _ _ _ _ _ _ _ _ Harg Hp), Hl, Hconv.
    simpl. by eexists.
Qed.

Lemma LoadArgs_nil_pointer_witness :
  ∃ pv, LoadArgs defaultLoader (params [("name", VString "Joe")]) nilHelloArgs =
          (nilHelloArgs, Panic pv).
Proof.
  apply (proj2 (LoadArgs_nil_pointer defaultLoader
                  (params [("name", VString "Joe")]) "helloArgs" helloArgs)
           [] helloName [helloGreeting] "name" (VString "Joe")
           (wrapped "github.com/btubbs/graphql-go-helpers.LoadString"
              (FuncVal (funcOf "LoadString" TString VString LoadString)))
           (Some (VString "Joe"))); reflexivity.
Defined.

(** X17.  What is registered is what is used: after [Register] has stored a
    converter for a type, [LoadArgs] on a struct with one argument given, of
    an exported field of that type, writes to that field what the converter
    returns for the argument, leaves the other fields alone and returns
    nil. *)
Theorem Register_then_LoadArgs e f gqlType e' p name pre field post argKey
    interfaceVal x name' decl' fs :
  Register e (FuncVal f) gqlType = (e', Return None) →
  Outs f !! 0 = Some (Type_ field) →
  Lookup (Tag field) argTag = Some argKey →
  graphql.Args p !! argKey = Some interfaceVal →
  Call (FuncVal f) interfaceVal = Returns x None →
  PkgPath field = "" →
  forallb (skipped p) pre = true → forallb (skipped p) post = true →
  LoadArgs e' p (Data (VPtr (StructOf name (pre ++ field :: post))
                         (Some (VStruct name' decl' fs)))) =
    (Data (VPtr (StructOf name (pre ++ field :: post))
             (Some (VStruct name' decl' (<[length pre := x]> fs)))),
     Return None).
Proof.
  intros Hreg Hout Harg Hp Hcall Hpkg Hpre Hpost.
  destruct (Register_ok_inv _ _ _ _ Hreg) as (c & out0 & [= <-] & [_ Houts] & _ & ->).
  rewrite Houts in Hout. injection Hout as ->.
  rewrite LoadArgs_struct_ptr, loadFields_app.
  rewrite (loadFields_skipped _ _ _ _ _ Hpre). cbv beta iota.
  rewrite (loadFields_present _ _ _ _ _ _ _ _ Harg Hp). simpl loaderFuncs.
  rewrite lookup_insert_eq.
  assert (Hw : wrapped (FuncName f) (FuncVal f) interfaceVal = (Some x, None))
    by (unfold wrapped; by rewrite Hcall).
  rewrite !Hw.
  unfold FieldSet. destruct (decide (PkgPath field = "")); [|done].
  by rewrite !(loadFields_skipped _ _ _ _ _ Hpost).
Qed.

Lemma Register_then_LoadArgs_witness :
  LoadArgs firstLoader (params [("name", VString "Joe")]) aWithSecret =
    (Data (VPtr (StructOf "withSecret" [plainName; secret])
             (Some (VStruct "withSecret" [plainName; secret]
                      (<[0 := VString "main.first"]>
                         [VString ""; VString "s3cr3t"])))),
     Return None).
Proof.
  apply (Register_then_LoadArgs Empty (constString "main.first") None
           firstLoader (params [("name", VString "Joe")]) "withSecret" []
           plainName [secret] "name" (VString "Joe")
           (VString "main.first") "withSecret" [plainName; secret]
           [VString ""; VString "s3cr3t"]); reflexivity.
Defined.

(** ** [LoadArgs]: calling it again *)

(** Setting a field to what it holds. *)
Lemma FieldSet_again e p fields field i x name decl fs :
  PkgPath field = "" →
  let sv1 := Some (VStruct name decl (<[i:=x]> fs)) in
  FieldSet (loadFields e p fields (S i) sv1).1 field i (Some x) =
    Return (loadFields e p fields (S i) sv1).1.
Proof.
  intros Hpkg sv1.
  pose proof (loadFields_shape e p fields (S i) sv1) as Hshape.
  pose proof (loadFields_frame e p fields i (S i) sv1) as Hframe.
  destruct (loadFields e p fields (S i) sv1) as [svF r]. simpl in *.
  destruct Hshape as (fs' & -> & Hlen). simpl in Hframe.
  unfold FieldSet. destruct (decide (PkgPath field = "")); [|done].
  do 3 f_equal. rewrite length_insert in Hlen.
  destruct (decide (i < length fs)%nat) as [Hlt|Hge].
  - apply list_insert_id. rewrite Hframe by (intros; lia).
    by apply list_lookup_insert_eq.
  - apply list_insert_ge. lia.
Qed.

(** Running the loop on what it left gives the same again, with loader
    funcs that are functions of their argument, as those of the model are. *)
Lemma loadFields_idem e p fields : ∀ i sv,
  loadFields e p fields i (loadFields e p fields i sv).1 =
    loadFields e p fields i sv.
Proof.
  induction fields as [|field fields IH]; intros i sv; [done|].
  destruct (Lookup (Tag field) argTag) as [argKey|] eqn:Harg.
  2: { rewrite !loadFields_cons, !Harg. apply IH. }
  destruct (graphql.Args p !! argKey) as [interfaceVal|] eqn:Hp.
  - destruct (loaderFuncs e !! Type_ field) as [loaderFunc|] eqn:Hl.
    2: { by rewrite !loadFields_cons, !Harg, !Hp, !Hl. }
    destruct (loaderFunc interfaceVal) as [toSet [err|]] eqn:Hconv.
    { by rewrite !loadFields_cons, !Harg, !Hp, !Hl, !Hconv. }
    destruct (FieldSet sv field i toSet) as [sv1|pv] eqn:Hset.
    2: { rewrite (loadFields_cons e p field fields i sv), Harg, Hp, Hl, Hconv,
           Hset. simpl fst.
         by rewrite loadFields_cons, Harg, Hp, Hl, Hconv, Hset. }
    rewrite (loadFields_cons e p field fields i sv), Harg, Hp, Hl, Hconv, Hset.
    rewrite loadFields_cons, Harg, Hp, Hl, Hconv.
    destruct (FieldSet_inv _ _ _ _ _ Hset) as (n & d & fs & x & -> & -> & Hpkg & ->).
    rewrite (FieldSet_again e p fields field i x n d fs Hpkg). apply IH.
  - destruct (Lookup (Tag field) requiredTag) as [requiredVal|] eqn:Hreq.
    2: { rewrite !loadFields_cons, !Harg, !Hp, !Hreq. apply IH. }
    destruct (strconv.ParseBool requiredVal) as [[|] [err|]] eqn:Hparse;
      rewrite !loadFields_cons, !Harg, !Hp, !Hreq, !Hparse; try done;
      apply IH.
Qed.

(** X18.  With the built-in loader funcs, [LoadArgs] is idempotent: the
    package variable [defaultLoader] as [init] leaves it holds [LoadBool],
    [LoadString], [LoadInt] and [LoadFloat], each of which returns what the
    type assertion on its argument gives and nothing else; called again
    with the same parameters on the destination as the first call left it,
    [LoadArgs] returns the same result and leaves the destination as it
    is, whether the first call succeeded, failed half way or panicked.  (A
    loader with a registered func that answers differently from one call to
    the next is not covered.) *)
Theorem LoadArgs_idempotent p c :
  LoadArgs defaultLoader p (LoadArgs defaultLoader p c).1 =
    LoadArgs defaultLoader p c.
Proof.
  rewrite LoadArgs_fst.
  destruct c as [[| | | | | |elem target]|f]; try reflexivity.
  destruct elem; try reflexivity.
  rewrite !LoadArgs_struct_ptr. by rewrite loadFields_idem.
Qed.

(** The loop reads the loader funcs of [e] and not its wire-types. *)
Lemma loadFields_loaders e e' p fields : ∀ i sv,
  loaderFuncs e = loaderFuncs e' →
  loadFields e p fields i sv = loadFields e' p fields i sv.
Proof.
  intros i sv Heq. revert i sv.
  induction fields as [|field fields IH]; intros i sv; [done|].
  rewrite !loadFields_cons, <- Heq.
  destruct (Lookup (Tag field) argTag) as [argKey|]; [|apply IH].
  destruct (graphql.Args p !! argKey) as [interfaceVal|].
  - destruct (loaderFuncs e !! Type_ field) as [loaderFunc|]; [|done].
    destruct (loaderFunc interfaceVal) as [toSet [err|]]; [done|].
    destruct (FieldSet sv field i toSet); [apply IH|done].
  - destruct (Lookup (Tag field) requiredTag) as [requiredVal|]; [|apply IH].
    destruct (strconv.ParseBool requiredVal) as [[|] [err|]]; try done;
      apply IH.
Qed.

(** ** [SafeArgsConfig] and [ArgsConfig]: the schema *)

(** The entry of the schema under [k] stems from the last field of that
    argument name. *)
Lemma argsConfigLoop_last e pre field post k :
  Lookup (Tag field) argTag = Some k →
  Forall (λ f, Lookup (Tag f) argTag ≠ Some k) post →
  argsConfigLoop e (pre ++ field :: post) !! k = Some (entryOf e field).
Proof.
  intros Harg Hpost. rewrite argsConfigLoop_app. simpl.
  rewrite (argsConfig_later_fields _ _ _ _ Hpost).
  unfold argsConfigStep. rewrite Harg. apply lookup_insert_eq.
Qed.

Lemma argsConfigLoop_keys e decl k :
  is_Some (argsConfigLoop e decl !! k) ↔
  ∃ field, field ∈ decl ∧ Lookup (Tag field) argTag = Some k.
Proof.
  induction decl as [|field decl IH] using rev_ind.
  { unfold argsConfigLoop; simpl. rewrite lookup_empty. split.
    - by intros [? ?].
    - intros (f & Hf & _). inversion Hf. }
  rewrite argsConfigLoop_app. simpl. unfold argsConfigStep at 1.
  destruct (Lookup (Tag field) argTag) as [k'|] eqn:Harg.
  - rewrite lookup_insert. case_decide as Hk.
    + subst k'. split; [|by eauto]. intros _. exists field.
      split; [|done]. apply elem_of_app. right. by apply list_elem_of_singleton.
    + rewrite IH. split.
      * intros (f & Hf & Hfk). exists f. split; [|done].
        apply elem_of_app. by left.
      * intros (f & Hf & Hfk). apply elem_of_app in Hf as [Hf|Hf]; [eauto|].
        apply list_elem_of_singleton in Hf. subst f. congruence.
  - rewrite IH. split.
    + intros (f & Hf & Hfk). exists f. split; [|done].
      apply elem_of_app. by left.
    + intros (f & Hf & Hfk). apply elem_of_app in Hf as [Hf|Hf]; [eauto|].
      apply list_elem_of_singleton in Hf. subst f. congruence.
Qed.

(** X19.  The schema that [SafeArgsConfig] derives from a struct, or from a
    pointer to one, has an entry under a name exactly when some field of
    the struct has that name as its [arg] tag. *)
Theorem SafeArgsConfig_keys e i name decl :
  TypeOf i = Some (StructOf name decl) ∨
  TypeOf i = Some (PtrTo (StructOf name decl)) →
  ∃ out,
    SafeArgsConfig e i = Return (Some out, None) ∧
    ∀ k, is_Some (out !! k) ↔
         ∃ field, field ∈ decl ∧ Lookup (Tag field) argTag = Some k.
Proof.
  intros Hi. exists (argsConfigLoop e decl).
  split; [by apply (SafeArgsConfig_struct e i name)|].
  apply argsConfigLoop_keys.
Qed.

Lemma SafeArgsConfig_keys_witness :
  ∃ out,
    SafeArgsConfig defaultLoader aWithSecret = Return (Some out, None) ∧
    ∀ k, is_Some (out !! k) ↔
         ∃ field, field ∈ [plainName; secret] ∧
                  Lookup (Tag field) argTag = Some k.
Proof.
  apply (SafeArgsConfig_keys defaultLoader aWithSecret "withSecret").
  right. reflexivity.
Defined.

(** X20.  When several fields have the same argument name, the schema has
    one entry under that name and it is the one of the field declared last:
    the wire-type registered for the type of that field, nil if there is
    none, and its [desc] tag, the empty string if it has none. *)
Theorem SafeArgsConfig_last_field_wins e i name pre field post k :
  TypeOf i = Some (StructOf name (pre ++ field :: post)) ∨
  TypeOf i = Some (PtrTo (StructOf name (pre ++ field :: post))) →
  Lookup (Tag field) argTag = Some k →
  Forall (λ f, Lookup (Tag f) argTag ≠ Some k) post →
  ∃ out,
    SafeArgsConfig e i = Return (Some out, None) ∧
    out !! k =
      Some {| graphql.Type' := default None (gqlTypes e !! Type_ field);
              graphql.Description := default "" (Lookup (Tag field) descTag) |}.
Proof.
  intros Hi Harg Hpost. eexists.
  split; [by apply (SafeArgsConfig_struct e i name)|].
  by apply argsConfigLoop_last.
Qed.

Lemma SafeArgsConfig_last_field_wins_witness :
  ∃ out,
    SafeArgsConfig defaultLoader aTwice = Return (Some out, None) ∧
    out !! "x" =
      Some {| graphql.Type' := default None (gqlTypes defaultLoader !! TInt);
              graphql.Description :=
                default "" (Lookup (Tag twiceSecond) descTag) |}.
Proof.
  apply (SafeArgsConfig_last_field_wins defaultLoader aTwice "twice"
           [twiceFirst] twiceSecond [] "x").
  - left. reflexivity.
  - reflexivity.
  - constructor.
Defined.

Lemma argsConfigLoop_same e e' decl decl' :
  gqlTypes e = gqlTypes e' → Forall2 sameArgument decl decl' →
  argsConfigLoop e decl = argsConfigLoop e' decl'.
Proof.
  intros Hg Hall. unfold argsConfigLoop.
  generalize (∅ : FieldConfigArgument) as out.
  induction Hall as [|f f' decl decl' (Ha & Hd & Ht) _ IH]; intros out; simpl;
    [done|].
  rewrite IH. f_equal. unfold argsConfigStep.
  by rewrite Ha, Hd, Ht, Hg.
Qed.

(** X21.  The schema depends on nothing but the wire-type map of the loader
    and, field by field, the [arg] tag, the [desc] tag and the type: two
    structs, or pointers to structs, whose fields agree on these give the
    same schema under loaders with the same wire-types, whatever the values
    of the fields, the names of the structs and fields, the [required] tags
    and the loader funcs are. *)
Theorem SafeArgsConfig_depends_on e e' i i' name decl name' decl' :
  TypeOf i = Some (StructOf name decl) ∨
  TypeOf i = Some (PtrTo (StructOf name decl)) →
  TypeOf i' = Some (StructOf name' decl') ∨
  TypeOf i' = Some (PtrTo (StructOf name' decl')) →
  gqlTypes e = gqlTypes e' →
  Forall2 sameArgument decl decl' →
  SafeArgsConfig e i = SafeArgsConfig e' i'.
Proof.
  intros Hi Hi' Hg Hall.
  rewrite (SafeArgsConfig_struct _ _ _ _ Hi), (SafeArgsConfig_struct _ _ _ _ Hi').
  by rewrite (argsConfigLoop_same e e' decl decl' Hg Hall).
Qed.

Lemma SafeArgsConfig_depends_on_witness :
  SafeArgsConfig defaultLoader newHelloArgs =
    SafeArgsConfig defaultLoader
      (Data (VStruct "other"
               [mkStructField "N" "" TString
                  [("desc", "Your name"); ("arg", "name")];
                helloGreeting] [])).
Proof.
  apply (SafeArgsConfig_depends_on defaultLoader defaultLoader _ _
           "helloArgs" helloArgs "other"
           [mkStructField "N" "" TString
              [("desc", "Your name"); ("arg", "name")];
            helloGreeting]).
  - right. reflexivity.
  - left. reflexivity.
  - reflexivity.
  - repeat constructor.
Defined.

(** X22.  The wire-type given to [Register] is the one the schema shows:
    after a successful [Register] of a converter, the entry of a field of
    the first output type of the converter has the wire-type registered with
    it. *)
Theorem Register_then_SafeArgsConfig e f gqlType e' i name pre field post k :
  Register e (FuncVal f) gqlType = (e', Return None) →
  Outs f !! 0 = Some (Type_ field) →
  TypeOf i = Some (StructOf name (pre ++ field :: post)) ∨
  TypeOf i = Some (PtrTo (StructOf name (pre ++ field :: post))) →
  Lookup (Tag field) argTag = Some k →
  Forall (λ f, Lookup (Tag f) argTag ≠ Some k) post →
  ∃ out,
    SafeArgsConfig e' i = Return (Some out, None) ∧
    out !! k = Some {| graphql.Type' := gqlType;
                       graphql.Description := Get (Tag field) descTag |}.
Proof.
  intros Hreg Hout Hi Harg Hpost.
  destruct (Register_ok_inv _ _ _ _ Hreg) as (c & out0 & [= <-] & [_ Houts] & _ & ->).
  rewrite Houts in Hout. injection Hout as ->.
  eexists. split; [by apply (SafeArgsConfig_struct _ i name)|].
  rewrite (argsConfigLoop_last _ _ _ _ _ Harg Hpost). unfold entryOf. simpl.
  by rewrite lookup_insert_eq.
Qed.

Lemma Register_then_SafeArgsConfig_witness :
  ∃ out,
    SafeArgsConfig
      (Register Empty (FuncVal (constString "main.first"))
         (Some (graphql.Named "Text"))).1 aPage
      = Return (Some out, None) ∧
    out !! "title" = Some {| graphql.Type' := Some (graphql.Named "Text");
                             graphql.Description := Get (Tag pageTitle) descTag |}.
Proof.
  apply (Register_then_SafeArgsConfig Empty (constString "main.first")
           (Some (graphql.Named "Text")) _ aPage "page" [] pageTitle
           [pageNext] "title").
  - reflexivity.
  - reflexivity.
  - left. reflexivity.
  - reflexivity.
  - repeat constructor. discriminate.
Defined.

(** [SafeArgsConfig] returns a schema or an error, not both and not
    neither. *)
Lemma SafeArgsConfig_result e i conf err :
  SafeArgsConfig e i = Return (conf, err) →
  (is_Some conf ∧ err = None) ∨
  (conf = None ∧ err = Some (Errorf "%v is not a struct" [operandOf i])).
Proof.
  unfold SafeArgsConfig. destruct (TypeOf i) as [t|]; [|done]. simpl.
  destruct (decide (Kind t = reflect.Ptr)).
  - destruct t; try done. simpl.
    destruct (decide (Kind t ≠ reflect.Struct)); intros [= <- <-]; eauto.
  - simpl. destruct (decide (Kind t ≠ reflect.Struct)); intros [= <- <-]; eauto.
Qed.

(** X23.  [ArgsConfig] never returns a nil schema and never an error: it
    returns the schema of [SafeArgsConfig], and where [SafeArgsConfig]
    returns its "is not a struct" error, [ArgsConfig] panics with the
    "could not configure arguments" message around that error. *)
Theorem ArgsConfig_schema_or_panic e i :
  ArgsConfig e i ≠ Return None ∧
  (∀ out, ArgsConfig e i = Return (Some out) ↔
          SafeArgsConfig e i = Return (Some out, None)) ∧
  (∀ conf err, SafeArgsConfig e i = Return (conf, Some err) →
     ArgsConfig e i =
       Panic (OSprintf "could not configure arguments: %v"
                [OError (Errorf "%v is not a struct" [operandOf i])])).
Proof.
  unfold ArgsConfig.
  destruct (SafeArgsConfig e i) as [[conf err]|pv] eqn:HS; simpl.
  - destruct (SafeArgsConfig_result _ _ _ _ HS) as [[[out ->] ->]|[-> ->]].
    + repeat split; try done; by intros [= ->].
    + repeat split; try done; by intros ? ? [= _ <-].
  - repeat split; done.
Qed.

Lemma ArgsConfig_schema_or_panic_witness :
  ArgsConfig defaultLoader (Data (VInt 3)) =
    Panic (OSprintf "could not configure arguments: %v"
             [OError (Errorf "%v is not a struct" [OValue (VInt 3)])]).
Proof.
  apply (proj2 (proj2 (ArgsConfig_schema_or_panic defaultLoader
                         (Data (VInt 3)))) None
           (Errorf "%v is not a struct" [OValue (VInt 3)])).
  reflexivity.
Defined.

(** X24.  [LoadArgs] depends on the loader through its loader funcs only:
    two loaders with the same loader funcs give the same result and the
    same destination, whatever wire-types are registered. *)
Theorem LoadArgs_depends_on_loaders e e' p c :
  loaderFuncs e = loaderFuncs e' → LoadArgs e p c = LoadArgs e' p c.
Proof.
  intros Heq.
  destruct c as [[| | | | | |elem target]|f]; try reflexivity.
  destruct elem; try reflexivity.
  rewrite !LoadArgs_struct_ptr.
  by rewrite (loadFields_loaders e e' p fields 0 target Heq).
Qed.

Lemma LoadArgs_depends_on_loaders_witness :
  LoadArgs defaultLoader (params [("name", VString "Joe")]) newHelloArgs =
    LoadArgs {| loaderFuncs := loaderFuncs defaultLoader; gqlTypes := ∅ |}
      (params [("name", VString "Joe")]) newHelloArgs.
Proof. apply LoadArgs_depends_on_loaders. reflexivity. Defined.

(** ** The demonstration program *)

(** [Resolve] looks at the arguments [name] and [greeting] only. *)
Lemma Resolve_helloParams p :
  main.Resolve p =
    main.Resolve (helloParams (graphql.Args p !! "name")
                    (graphql.Args p !! "greeting")).
Proof.
  unfold main.Resolve, graphqlhelpers.LoadArgs, newHelloArgs.
  rewrite !LoadArgs_struct_ptr.
  rewrite (loadFields_ext defaultLoader p
             (helloParams (graphql.Args p !! "name")
                (graphql.Args p !! "greeting")) helloArgs 0 (helloValue "" ""));
    [done|].
  repeat constructor; intros k [= <-];
    destruct (graphql.Args p !! "name"), (graphql.Args p !! "greeting");
    reflexivity.
Qed.

(** [LoadArgs] of the package on the two arguments as strings. *)
Lemma hello_loaded (n : string) (g : option string) :
  LoadArgs defaultLoader (helloParams (Some (VString n)) (VString <$> g))
    newHelloArgs =
  (Data (VPtr (StructOf "helloArgs" helloArgs) (helloValue n (default "" g))),
   Return None).
Proof. destruct g; vm_compute; reflexivity. Qed.

Lemma hello_no_name (b : option value) :
  LoadArgs defaultLoader (helloParams None b) newHelloArgs =
  (newHelloArgs, Return (Some (Errorf "%s is required" [OString "name"]))).
Proof. destruct b; vm_compute; reflexivity. Qed.

Lemma hello_bad_name (a : value) (b : option value) :
  (∀ n, a ≠ VString n) →
  ∃ err, LoadArgs defaultLoader (helloParams (Some a) b) newHelloArgs =
           (newHelloArgs, Return (Some err)).
Proof.
  intros Ha. destruct a; try (by destruct (Ha s));
    destruct b; eexists; vm_compute; reflexivity.
Qed.

Lemma hello_bad_greeting (n : string) (b : value) :
  (∀ g, b ≠ VString g) →
  ∃ c err, LoadArgs defaultLoader (helloParams (Some (VString n)) (Some b))
             newHelloArgs = (c, Return (Some err)).
Proof.
  intros Hb. destruct b; try (by destruct (Hb s));
    do 2 eexists; vm_compute; reflexivity.
Qed.

(** X25.  The [Resolve] func of the demonstration program never panics.
    Without the argument [name] it returns the "name is required" error;
    with [name] a string and [greeting] missing or the empty string it
    returns "Hello" and the name; with [greeting] another string it returns
    the greeting and the name; with an argument that is no string it
    returns an error and no value. *)
Theorem Resolve_hello p :
  (∀ pv, main.Resolve p ≠ Panic pv) ∧
  (graphql.Args p !! "name" = None →
   main.Resolve p =
     Return (VNil, Some (Errorf "%s is required" [OString "name"]))) ∧
  (∀ n, graphql.Args p !! "name" = Some (VString n) →
     (graphql.Args p !! "greeting" = None ∨
      graphql.Args p !! "greeting" = Some (VString "") →
      main.Resolve p = Return (VString ("Hello " ++ n), None)) ∧
     (∀ g, graphql.Args p !! "greeting" = Some (VString g) → g ≠ "" →
        main.Resolve p = Return (VString (g ++ " " ++ n), None))) ∧
  (∀ v, (graphql.Args p !! "name" = Some v ∧ ∀ n, v ≠ VString n) ∨
        (graphql.Args p !! "greeting" = Some v ∧ ∀ g, v ≠ VString g) →
     ∃ err, main.Resolve p = Return (VNil, Some err)).
Proof.
  rewrite Resolve_helloParams.
  assert (Hcase : ∀ v, (∃ s, v = VString s) ∨ (∀ s, v ≠ VString s))
    by (intros v; destruct v; eauto).
  unfold main.Resolve, graphqlhelpers.LoadArgs.
  destruct (graphql.Args p !! "name") as [a|] eqn:Ha.
  2: { rewrite hello_no_name. split; [done|]. split; [done|].
       split; [done|].
       intros v [[? _]|[_ Hv]]; [done|]. by eexists. }
  destruct (Hcase a) as [[n ->]|Hna].
  2: { destruct (hello_bad_name a (graphql.Args p !! "greeting") Hna)
         as [err ->].
       split; [done|]. split; [done|]. split.
       - intros n [= ->]. by destruct (Hna n).
       - intros; by eexists. }
  destruct (graphql.Args p !! "greeting") as [b|] eqn:Hb.
  2: { pose proof (hello_loaded n None) as Hl. simpl in Hl. rewrite Hl.
       split; [done|]. split; [done|]. split.
       - intros n' [= <-]. split; [done|]. by intros g [= ].
       - intros v [[[= <-] Hv]|[? _]]; [|done]. by destruct (Hv n). }
  destruct (Hcase b) as [[g ->]|Hnb].
  2: { destruct (hello_bad_greeting n b Hnb) as (c & err & ->).
       split; [done|]. split; [done|]. split.
       - intros n' [= <-]. split.
         + intros [[= ]|[= ->]]. by destruct (Hnb "").
         + intros g [= ->]. by destruct (Hnb g).
       - intros; by eexists. }
  pose proof (hello_loaded n (Some g)) as Hl. simpl in Hl. rewrite Hl.
  cbv beta iota delta [targetOf helloValue].
  split; [by destruct (decide (g = ""))|]. split; [done|]. split.
  - intros n' [= <-]. split.
    + intros [[= ]|[= ->]]. reflexivity.
    + intros g' [= <-] Hg. by destruct (decide (g = "")).
  - intros v [[[= <-] Hv]|[[= <-] Hv]]; [by destruct (Hv n)|by destruct (Hv g)].
Qed.

Lemma Resolve_hello_witness :
  main.Resolve (params [("name", VString "Joe")]) =
    Return (VString "Hello Joe", None) ∧
  main.Resolve (params [("name", VString "Joe"); ("greeting", VString "Goodbye")])
    = Return (VString "Goodbye Joe", None).
Proof.
  split.
  - apply (proj1 (proj1 (proj2 (proj2 (Resolve_hello
             (params [("name", VString "Joe")])))) "Joe" eq_refl)).
    left. reflexivity.
  - apply (proj2 (proj1 (proj2 (proj2 (Resolve_hello
             (params [("name", VString "Joe");
                      ("greeting", VString "Goodbye")])))) "Joe" eq_refl)
             "Goodbye"); [reflexivity|discriminate].
Defined.
